(** * KiteLink: the credential lifecycle of the Zerodha MCP server

    A shallow embedding of [src/tools/zerodha-tools.ts] (class [ZerodhaAuth],
    [validateAccessToken], [updateEnvFile], [getValidAccessToken]), of the
    constructor of [ZerodhaClient] in [src/zerodha-client.ts] and of the
    configuration object built by [ZerodhaMCPServer.initializeZerodhaClient].

    JavaScript strings are lists of Unicode code points, JSON payloads are a
    small value type, and the asynchronous functions are computations over
    an explicit environment (network, terminal, the [.env] file) that return
    an outcome, the new file state and the events they emitted, in order.
    The file state is the text decoded from the [.env] file; its bytes, with
    the UTF-8 decoding of a read and the encoding of a write, are modelled
    beside it. *)

From Stdlib Require Import NArith ZArith Ascii String List Lia Bool DecimalString.
From stdpp Require Import gmap strings list.

Set Warnings "-register-all".
Local Open Scope N_scope.

(** ** Strings *)

(** A JavaScript string, as the sequence of its code points.  Every string
    the program handles is decoded from UTF-8 (terminal input, the [.env]
    file, environment variables, JSON), so it has no lone surrogates and the
    code-unit operations of the source ([+], [trim], [===], [replace]) act
    on it as they do on the code points. *)
Abbreviation jsstring := (list N).

(** An ASCII literal of the source. *)
Definition lit (s : string) : jsstring :=
  map N_of_ascii (list_ascii_of_string s).
Arguments lit s%_string.

(** ECMAScript [WhiteSpace]: TAB, VT, FF, SP, NBSP, ZWNBSP and category Zs. *)
Definition isWhiteSpace (c : N) : bool :=
  (c =? 0x09) || (c =? 0x0B) || (c =? 0x0C) || (c =? 0x20) || (c =? 0xA0)
  || (c =? 0xFEFF) || (c =? 0x1680) || ((0x2000 <=? c) && (c <=? 0x200A))
  || (c =? 0x202F) || (c =? 0x205F) || (c =? 0x3000).

(** ECMAScript [LineTerminator]: LF, CR, LS, PS. *)
Definition isLineTerminator (c : N) : bool :=
  (c =? 0x0A) || (c =? 0x0D) || (c =? 0x2028) || (c =? 0x2029).

(** What [String.prototype.trim] strips. *)
Definition isTrimmed (c : N) : bool := isWhiteSpace c || isLineTerminator c.

Fixpoint trimStart (s : jsstring) : jsstring :=
  match s with
  | [] => []
  | c :: s' => if isTrimmed c then trimStart s' else s
  end.

Definition trimEnd (s : jsstring) : jsstring := rev (trimStart (rev s)).

(** [String.prototype.trim]. *)
Definition trim (s : jsstring) : jsstring := trimEnd (trimStart s).

(** Strict equality of two strings. *)
Definition str_eqb (a b : jsstring) : bool := bool_decide (a = b).

(** [s.startsWith(p)], used for literal matching. *)
Fixpoint startsWith (p s : jsstring) : bool :=
  match p, s with
  | [], _ => true
  | _ :: _, [] => false
  | a :: p', b :: s' => (a =? b) && startsWith p' s'
  end.

(** ** UTF-8 and hexadecimal *)

(** The UTF-8 bytes of one code point. *)
Definition utf8_encode_cp (c : N) : list N :=
  if c <? 0x80 then [c]
  else if c <? 0x800 then
    [N.lor 0xC0 (N.shiftr c 6); N.lor 0x80 (N.land c 0x3F)]
  else if c <? 0x10000 then
    [N.lor 0xE0 (N.shiftr c 12);
     N.lor 0x80 (N.land (N.shiftr c 6) 0x3F);
     N.lor 0x80 (N.land c 0x3F)]
  else
    [N.lor 0xF0 (N.land (N.shiftr c 18) 0x07);
     N.lor 0x80 (N.land (N.shiftr c 12) 0x3F);
     N.lor 0x80 (N.land (N.shiftr c 6) 0x3F);
     N.lor 0x80 (N.land c 0x3F)].

(** The bytes [hash.update(str)] and the form serializer work on. *)
Definition utf8_encode (s : jsstring) : list N := flat_map utf8_encode_cp s.

Definition hex_digit (upper : bool) (d : N) : N :=
  if d <? 10 then 0x30 + d
  else (if upper then 0x41 else 0x61) + (d - 10).

Definition hex_byte (upper : bool) (b : N) : jsstring :=
  [hex_digit upper (N.shiftr b 4); hex_digit upper (N.land b 0x0F)].

(** [digest('hex')]: two lower-case digits per byte. *)
Definition hex_encode (bs : list N) : jsstring := flat_map (hex_byte false) bs.

(** ** SHA-256 (FIPS 180-4), on 32-bit words held in [N] *)

Module SHA256.

Definition mask32 : N := 0xFFFFFFFF.
Definition add32 (a b : N) : N := N.land (a + b) mask32.
Definition not32 (x : N) : N := N.lxor (N.land x mask32) mask32.
Definition rotr (n x : N) : N :=
  N.lor (N.shiftr x n) (N.land (N.shiftl x (32 - n)) mask32).
Definition shr (n x : N) : N := N.shiftr x n.

Definition Ch (x y z : N) : N := N.lxor (N.land x y) (N.land (not32 x) z).
Definition Maj (x y z : N) : N :=
  N.lxor (N.lxor (N.land x y) (N.land x z)) (N.land y z).
Definition Sigma0 (x : N) : N := N.lxor (N.lxor (rotr 2 x) (rotr 13 x)) (rotr 22 x).
Definition Sigma1 (x : N) : N := N.lxor (N.lxor (rotr 6 x) (rotr 11 x)) (rotr 25 x).
Definition sigma0 (x : N) : N := N.lxor (N.lxor (rotr 7 x) (rotr 18 x)) (shr 3 x).
Definition sigma1 (x : N) : N := N.lxor (N.lxor (rotr 17 x) (rotr 19 x)) (shr 10 x).

(** The primes below 312: the first 64. *)
Definition is_prime (n : N) : bool :=
  (2 <=? n)
  && forallb (fun d => negb (n mod N.of_nat d =? 0)) (seq 2 (N.to_nat n - 2)).

Definition primes : list N :=
  List.filter is_prime (map N.of_nat (seq 0 312)).

(** The integer cube root, bit by bit from bit [n - 1] down. *)
Fixpoint cbrt_bits (n : nat) (x r : N) : N :=
  match n with
  | O => r
  | S n' =>
      let r' := N.lor r (N.shiftl 1 (N.of_nat n')) in
      if r' * r' * r' <=? x then cbrt_bits n' x r' else cbrt_bits n' x r
  end.

(** The first 32 bits of the fractional part of a cube root, of a square
    root. *)
Definition frac_cbrt (p : N) : N :=
  N.land (cbrt_bits 36 (N.shiftl p 96) 0) mask32.
Definition frac_sqrt (p : N) : N :=
  N.land (N.sqrt (N.shiftl p 64)) mask32.

(** The round constants: from the cube roots of the first 64 primes. *)
Definition K : list N := Eval vm_compute in map frac_cbrt primes.

(** The initial hash value: from the square roots of the first 8 primes. *)
Definition H0 : list N := Eval vm_compute in map frac_sqrt (firstn 8 primes).

(** Big-endian bytes of the low [n] bytes of [x]. *)
Fixpoint be_bytes (n : nat) (x : N) : list N :=
  match n with
  | O => []
  | S n' => N.land (N.shiftr x (8 * N.of_nat n')) 0xFF :: be_bytes n' x
  end.

(** The message, a 1 bit, zeros up to 56 mod 64, the bit length on 8 bytes. *)
Definition pad (msg : list N) : list N :=
  let len := N.of_nat (length msg) in
  let zeros := (64 - (len + 9) mod 64) mod 64 in
  msg ++ [0x80] ++ repeat 0 (N.to_nat zeros) ++ be_bytes 8 (8 * len).

(** Big-endian words of a byte string (a last, short group is zero-extended
    on the right; [pad] leaves none). *)
Fixpoint words (fuel : nat) (bs : list N) : list N :=
  match fuel, bs with
  | O, _ | _, [] => []
  | S fuel', b0 :: rest =>
      let b1 := nth 0 rest 0 in
      let b2 := nth 1 rest 0 in
      let b3 := nth 2 rest 0 in
      (N.shiftl b0 24 + N.shiftl b1 16 + N.shiftl b2 8 + b3)
        :: words fuel' (skipn 3 rest)
  end.

(** Consecutive groups of [n] elements. *)
Fixpoint chunks {A} (fuel : nat) (n : nat) (l : list A) : list (list A) :=
  match fuel, l with
  | O, _ | _, [] => []
  | S fuel', _ => firstn n l :: chunks fuel' n (skipn n l)
  end.

(** The working variables a..h and the sliding window W[t..t+15]. *)
Definition round (st : list N * list N) (k : N) : list N * list N :=
  let '(v, w) := st in
  let a := nth 0 v 0 in let b := nth 1 v 0 in
  let c := nth 2 v 0 in let d := nth 3 v 0 in
  let e := nth 4 v 0 in let f := nth 5 v 0 in
  let g := nth 6 v 0 in let h := nth 7 v 0 in
  let wt := nth 0 w 0 in
  let t1 := add32 (add32 (add32 (add32 h (Sigma1 e)) (Ch e f g)) k) wt in
  let t2 := add32 (Sigma0 a) (Maj a b c) in
  let wnext :=
    add32 (add32 (add32 (sigma1 (nth 14 w 0)) (nth 9 w 0))
                 (sigma0 (nth 1 w 0))) (nth 0 w 0) in
  ([add32 t1 t2; a; b; c; add32 d t1; e; f; g], tl w ++ [wnext]).

(** One block: 64 rounds, then the feed-forward addition. *)
Definition compress (h : list N) (block : list N) : list N :=
  let '(v, _) := fold_left round K (h, block) in
  zip_with add32 h v.

Definition digest (msg : list N) : list N :=
  let padded := pad msg in
  let blocks := chunks (length padded) 16 (words (length padded) padded) in
  flat_map (be_bytes 4) (fold_left compress blocks H0).

End SHA256.

(** [crypto.createHash('sha256').update(s).digest('hex')]. *)
Definition sha256_hex (s : jsstring) : jsstring :=
  hex_encode (SHA256.digest (utf8_encode s)).

(** ** JavaScript values *)

(** The values a parsed JSON payload or a configuration object holds.  An
    object is the list of its own properties. *)
Inductive JsVal : Type :=
| JUndefined
| JNull
| JBool (b : bool)
| JNum (n : Z)
| JNaN
| JStr (s : jsstring)
| JObj (fields : list (jsstring * JsVal)).

(** What a [throw] or a rejected promise carries. *)
Inductive JsError : Type :=
| ErrAxios (response_data_message : JsVal) (message : jsstring)
| ErrError (message : jsstring)
| ErrTypeError (message : jsstring).

(** [error.message]; every error here is an [Error] instance. *)
Definition error_message (e : JsError) : jsstring :=
  match e with
  | ErrAxios _ m | ErrError m | ErrTypeError m => m
  end.

(** [axios.isAxiosError(error)]. *)
Definition isAxiosError (e : JsError) : bool :=
  match e with ErrAxios _ _ => true | _ => false end.

(** [error.response?.data?.message]. *)
Definition response_message (e : JsError) : JsVal :=
  match e with ErrAxios m _ => m | _ => JUndefined end.

(** [ToBoolean]. *)
Definition truthy (v : JsVal) : bool :=
  match v with
  | JUndefined | JNull | JNaN => false
  | JBool b => b
  | JNum n => negb (n =? 0)%Z
  | JStr s => match s with [] => false | _ => true end
  | JObj _ => true
  end.

Definition truthy_str (s : jsstring) : bool :=
  match s with [] => false | _ => true end.

(** [ToString], as a template literal applies it.  An integer is printed
    with all its digits, as the engine does below 10^21. *)
Definition ToString (v : JsVal) : jsstring :=
  match v with
  | JUndefined => lit "undefined"
  | JNull => lit "null"
  | JBool true => lit "true"
  | JBool false => lit "false"
  | JNum (Zneg p) => lit "-" ++ lit (NilZero.string_of_uint (Pos.to_uint p))
  | JNum n => lit (NilZero.string_of_uint (N.to_uint (Z.to_N n)))
  | JNaN => lit "NaN"
  | JStr s => s
  | JObj _ => lit "[object Object]"
  end.

(** [v === 'literal']. *)
Definition strict_eq_str (v : JsVal) (s : jsstring) : bool :=
  match v with JStr t => str_eqb t s | _ => false end.

Fixpoint lookup_field (p : jsstring) (fs : list (jsstring * JsVal)) : JsVal :=
  match fs with
  | [] => JUndefined
  | (k, v) :: fs' => if str_eqb k p then v else lookup_field p fs'
  end.

(** [v.p]: a [TypeError] on [undefined] and [null], the property of an
    object, [undefined] on the other primitives (none of the properties
    read here exists on their prototypes). *)
Definition get_prop (v : JsVal) (p : jsstring) : JsError + JsVal :=
  match v with
  | JUndefined =>
      inl (ErrTypeError
             (lit "Cannot read properties of undefined (reading '" ++ p ++ lit "')"))
  | JNull =>
      inl (ErrTypeError
             (lit "Cannot read properties of null (reading '" ++ p ++ lit "')"))
  | JObj fs => inr (lookup_field p fs)
  | _ => inr JUndefined
  end.

(** ** [URLSearchParams] *)

(** Bytes the [application/x-www-form-urlencoded] serializer leaves as they
    are: ASCII letters and digits, [*], [-], [.] and [_]. *)
Definition form_unreserved (b : N) : bool :=
  ((0x30 <=? b) && (b <=? 0x39)) || ((0x41 <=? b) && (b <=? 0x5A))
  || ((0x61 <=? b) && (b <=? 0x7A))
  || (b =? 0x2A) || (b =? 0x2D) || (b =? 0x2E) || (b =? 0x5F).

Definition form_encode_byte (b : N) : jsstring :=
  if form_unreserved b then [b]
  else if b =? 0x20 then [0x2B]
  else 0x25 :: hex_byte true b.

Definition form_encode (s : jsstring) : jsstring :=
  flat_map form_encode_byte (utf8_encode s).

(** [params.toString()], the body axios sends for a [URLSearchParams]. *)
Fixpoint URLSearchParams_toString (ps : list (jsstring * jsstring)) : jsstring :=
  match ps with
  | [] => []
  | [(k, v)] => form_encode k ++ lit "=" ++ form_encode v
  | (k, v) :: ps' =>
      form_encode k ++ lit "=" ++ form_encode v ++ lit "&"
        ++ URLSearchParams_toString ps'
  end.

(** ** The environment and the events of a run *)

Inductive AxiosResult : Type :=
| AxiosResolve (data : JsVal)          (* a 2xx response, [response.data] *)
| AxiosReject (e : JsError).           (* network error, timeout, non-2xx *)

(** What the process does to the outside, in order. *)
Inductive Event : Type :=
| ConsoleLog (msg : jsstring)
| ConsoleWarn (msg : jsstring) (err : JsError)
| ConsoleError (msg : jsstring) (err : option JsError)
| ProcessExit (code : N)
| AxiosGet (url : jsstring) (headers : list (jsstring * jsstring)) (timeout : N)
| AxiosPost (url : jsstring) (formData : list (jsstring * jsstring))
            (headers : list (jsstring * jsstring)) (timeout : N)
| RlQuestion (prompt : jsstring)
| RlClose
| FsReadFile (path : jsstring)
| FsWriteFile (path : jsstring) (content : jsstring).

(** The outside world of one run: what the broker answers to each request,
    the line the operator pastes ([None]: the input stream closes first),
    the working directory, and whether writing the [.env] file fails. *)
Record Env : Type := {
  net_get : jsstring -> list (jsstring * jsstring) -> AxiosResult;
  net_post : jsstring -> list (jsstring * jsstring) -> AxiosResult;
  stdin_line : option jsstring;
  cwd : jsstring;
  write_error : option JsError;
}.

(** The [.env] file as the program sees it: the text that
    [fs.readFile(path, 'utf-8')] decodes from its bytes, [None] when it
    cannot be read.  The bytes are added in [file_text] and [file_after]. *)
Abbreviation Disk := (option jsstring).

(** How a promise ends: fulfilled, rejected, or never settled. *)
Inductive Outcome (A : Type) : Type :=
| Resolved (a : A)
| Rejected (e : JsError)
| Pending.
Arguments Resolved {A} a.
Arguments Rejected {A} e.
Arguments Pending {A}.

(** An [async] function: from the world and the file to its outcome, the
    file afterwards and the events emitted. *)
Definition Async (A : Type) : Type := Env -> Disk -> Outcome A * Disk * list Event.

Definition ret {A} (a : A) : Async A := fun _ d => (Resolved a, d, []).

Definition throw {A} (e : JsError) : Async A := fun _ d => (Rejected e, d, []).

Definition bind {A B} (m : Async A) (k : A -> Async B) : Async B :=
  fun env d =>
    match m env d with
    | (Resolved a, d1, t1) =>
        let '(o, d2, t2) := k a env d1 in (o, d2, t1 ++ t2)
    | (Rejected e, d1, t1) => (Rejected e, d1, t1)
    | (Pending, d1, t1) => (Pending, d1, t1)
    end.

(** [try { m } catch (error) { h error }]. *)
Definition try_catch {A} (m : Async A) (h : JsError -> Async A) : Async A :=
  fun env d =>
    match m env d with
    | (Rejected e, d1, t1) =>
        let '(o, d2, t2) := h e env d1 in (o, d2, t1 ++ t2)
    | r => r
    end.

Definition lift {A} (r : JsError + A) : Async A :=
  match r with inl e => throw e | inr a => ret a end.

Notation "'await' x <- m ; k" := (bind m (fun x => k))
  (at level 10, x name, m at level 100, k at level 200).
Notation "'step' m ; k" := (bind m (fun _ => k))
  (at level 10, m at level 100, k at level 200).

Definition emit (e : Event) : Async unit := fun _ d => (Resolved tt, d, [e]).

Definition console_log (msg : jsstring) : Async unit := emit (ConsoleLog msg).

Definition console_warn (msg : jsstring) (err : JsError) : Async unit :=
  emit (ConsoleWarn msg err).

Definition console_error (msg : jsstring) (err : option JsError) : Async unit :=
  emit (ConsoleError msg err).

(** [process.exit(code)]: the process ends, the caller is never resumed. *)
Definition process_exit {A} (code : N) : Async A :=
  fun _ d => (Pending, d, [ProcessExit code]).

(** [await axios.get(url, { headers, timeout })], giving [response.data]. *)
Definition axios_get (url : jsstring) (headers : list (jsstring * jsstring))
    (timeout : N) : Async JsVal :=
  fun env d =>
    match net_get env url headers with
    | AxiosResolve data => (Resolved data, d, [AxiosGet url headers timeout])
    | AxiosReject e => (Rejected e, d, [AxiosGet url headers timeout])
    end.

(** [await axios.post(url, formData, { headers, timeout })]. *)
Definition axios_post (url : jsstring) (formData : list (jsstring * jsstring))
    (headers : list (jsstring * jsstring)) (timeout : N) : Async JsVal :=
  fun env d =>
    match net_post env url formData with
    | AxiosResolve data =>
        (Resolved data, d, [AxiosPost url formData headers timeout])
    | AxiosReject e =>
        (Rejected e, d, [AxiosPost url formData headers timeout])
    end.

(** [rl.question(prompt, callback)] with the [rl.close()] that opens the
    callback; the callback never runs when the input closes first. *)
Definition rl_question (prompt : jsstring) : Async jsstring :=
  fun env d =>
    match stdin_line env with
    | Some answer => (Resolved answer, d, [RlQuestion prompt; RlClose])
    | None => (Pending, d, [RlQuestion prompt])
    end.

Definition process_cwd : Async jsstring := fun env d => (Resolved (cwd env), d, []).

(** [path.resolve(dir, name)] for an absolute, normalized [dir]. *)
Definition path_resolve (dir name : jsstring) : jsstring :=
  match rev dir with
  | 0x2F :: _ => dir ++ name
  | _ => dir ++ lit "/" ++ name
  end.

(** [await fs.readFile(path, 'utf-8')] of the [.env] file. *)
Definition fs_readFile (path : jsstring) : Async jsstring :=
  fun _ d =>
    match d with
    | Some content => (Resolved content, d, [FsReadFile path])
    | None =>
        (Rejected (ErrError (lit "ENOENT: no such file or directory, open '"
                               ++ path ++ lit "'")),
         d, [FsReadFile path])
    end.

(** [await fs.writeFile(path, content, 'utf-8')] of the [.env] file. *)
Definition fs_writeFile (path content : jsstring) : Async unit :=
  fun env d =>
    match write_error env with
    | None => (Resolved tt, Some content, [FsWriteFile path content])
    | Some e => (Rejected e, d, [FsWriteFile path content])
    end.

(** ** [String.prototype.replace] with the pattern [/KEY.*/] *)

(** The longest prefix [.*] takes: up to the next line terminator. *)
Fixpoint dot_star (s : jsstring) : jsstring :=
  match s with
  | [] => []
  | c :: s' => if isLineTerminator c then [] else c :: dot_star s'
  end.

(** [/KEY.*/.exec(s)] for a literal [KEY]: the text before the leftmost
    match, the match, and the text after it. *)
Fixpoint regex_exec (key s : jsstring) : option (jsstring * jsstring * jsstring) :=
  if startsWith key s then
    let m := key ++ dot_star (drop (length key) s) in
    Some ([], m, drop (length m) s)
  else
    match s with
    | [] => None
    | c :: s' =>
        match regex_exec key s' with
        | Some (before, m, after) => Some (c :: before, m, after)
        | None => None
        end
    end.

(** [GetSubstitution] for a pattern without capture groups: [$$] is a
    dollar, [$&] the match, [$`] the text before it, [$'] the text after
    it; any other dollar stands for itself. *)
Fixpoint GetSubstitution (matched before after replacement : jsstring) : jsstring :=
  match replacement with
  | [] => []
  | c :: r =>
      if c =? 0x24 then
        match r with
        | [] => [c]
        | d :: r' =>
            if d =? 0x24 then 0x24 :: GetSubstitution matched before after r'
            else if d =? 0x26 then matched ++ GetSubstitution matched before after r'
            else if d =? 0x60 then before ++ GetSubstitution matched before after r'
            else if d =? 0x27 then after ++ GetSubstitution matched before after r'
            else c :: GetSubstitution matched before after r
        end
      else c :: GetSubstitution matched before after r
  end.

(** [s.replace(/KEY.*/, replacement)]: the first match only. *)
Definition replace_regex (key s replacement : jsstring) : jsstring :=
  match regex_exec key s with
  | Some (before, m, after) =>
      before ++ GetSubstitution m before after replacement ++ after
  | None => s
  end.

(** ** [class ZerodhaAuth] *)

Record ZerodhaAuth : Type := {
  apiKey : jsstring;
  apiSecret : jsstring;
  baseUrl : jsstring;
}.

(** [new ZerodhaAuth(apiKey, apiSecret, baseUrl = 'https://api.kite.trade')]. *)
Definition new_ZerodhaAuth (k s : jsstring) (url : option jsstring) : ZerodhaAuth :=
  {| apiKey := k;
     apiSecret := s;
     baseUrl := match url with
                | Some u => u
                | None => lit "https://api.kite.trade"
                end |}.

Definition getLoginUrl (this : ZerodhaAuth) : jsstring :=
  lit "https://kite.zerodha.com/connect/login?api_key=" ++ apiKey this.

(** The checksum of [generateAccessToken]: the string handed to [update]
    and its SHA-256 digest in hexadecimal. *)
Definition checksum_message (k requestToken s : jsstring) : jsstring :=
  k ++ requestToken ++ s.

Definition checksum (k requestToken s : jsstring) : jsstring :=
  sha256_hex (checksum_message k requestToken s).

(** The [URLSearchParams] of [generateAccessToken]. *)
Definition exchange_formData (this : ZerodhaAuth) (requestToken : jsstring)
    : list (jsstring * jsstring) :=
  [(lit "api_key", apiKey this);
   (lit "request_token", requestToken);
   (lit "checksum", checksum (apiKey this) requestToken (apiSecret this))].

Definition generateAccessToken (this : ZerodhaAuth) (requestToken : jsstring)
    : Async JsVal :=
  try_catch
    (let formData := exchange_formData this requestToken in
     await response_data <-
       axios_post (baseUrl this ++ lit "/session/token") formData
         [(lit "Content-Type", lit "application/x-www-form-urlencoded")] 30000;
     await status <- lift (get_prop response_data (lit "status"));
     if strict_eq_str status (lit "success") then
       lift (get_prop response_data (lit "data"))
     else
       await message <- lift (get_prop response_data (lit "message"));
       throw (ErrError (lit "Authentication failed: " ++ ToString message)))
    (fun error =>
       if isAxiosError error then
         throw (ErrError
                  (lit "Failed to generate access token: "
                     ++ ToString (if truthy (response_message error)
                                  then response_message error
                                  else JStr (error_message error))))
       else throw error).

Definition interactiveAuth (this : ZerodhaAuth) : Async JsVal :=
  step console_log ([0x0A; 0x1F510] ++ lit " Zerodha Authentication Required");
  step console_log (lit "=====================================");
  step console_log (lit "1. Open this URL in your browser:");
  step console_log (lit "   " ++ getLoginUrl this);
  step console_log (lit "2. Complete the login process");
  step console_log (lit "3. Copy the request_token from the redirect URL");
  step console_log (lit "4. The URL will look like: https://your-redirect-url?request_token=XXXXXX&action=login&status=success");
  step console_log ([0x0A] ++ lit "Waiting for request token..." ++ [0x0A]);
  await requestToken <- rl_question (lit "Please paste the request_token here: ");
  if negb (truthy_str requestToken) || str_eqb (trim requestToken) [] then
    throw (ErrError (lit "Request token is required"))
  else
    try_catch
      (step console_log ([0x1F504] ++ lit " Generating access token...");
       await authResponse <- generateAccessToken this (trim requestToken);
       step console_log ([0x2705] ++ lit " Access token generated successfully!");
       lift (get_prop authResponse (lit "access_token")))
      (fun error => throw error).

(** ** The validation probe *)

Definition validateAccessToken (k accessToken : jsstring) (url : option jsstring)
    : Async bool :=
  let baseUrl := match url with
                 | Some u => u
                 | None => lit "https://api.kite.trade"
                 end in
  try_catch
    (await response_data <-
       axios_get (baseUrl ++ lit "/user/profile")
         [(lit "Authorization", lit "token " ++ k ++ lit ":" ++ accessToken);
          (lit "X-Kite-Version", lit "3")] 10000;
     await status <- lift (get_prop response_data (lit "status"));
     ret (strict_eq_str status (lit "success")))
    (fun _ => ret false).

(** ** Persistence *)

(** The file written when [.env] cannot be read. *)
Definition env_template : jsstring :=
  lit "# Zerodha API Configuration
ZERODHA_API_KEY=your_api_key
ZERODHA_API_SECRET=your_api_secret
ZERODHA_ACCESS_TOKEN=your_access_token

# Optional: Request timeout in milliseconds
REQUEST_TIMEOUT=30000

# Optional: Base URL for Zerodha API
ZERODHA_BASE_URL=https://api.kite.trade
".

Definition token_key : jsstring := lit "ZERODHA_ACCESS_TOKEN=".

(** The content [updateEnvFile] writes over [envContent]. *)
Definition updatedContent (envContent : jsstring) (accessToken : JsVal) : jsstring :=
  replace_regex token_key envContent (token_key ++ ToString accessToken).

Definition updateEnvFile (accessToken : JsVal) : Async unit :=
  try_catch
    (await dir <- process_cwd;
     let envPath := path_resolve dir (lit ".env") in
     await envContent <-
       try_catch (fs_readFile envPath) (fun _ => ret env_template);
     step fs_writeFile envPath (updatedContent envContent accessToken);
     console_log ([0x1F4DD] ++ lit " Access token saved to .env file"))
    (fun error =>
       step console_warn ([0x26A0; 0xFE0F] ++ lit "  Could not update .env file:") error;
       console_log ([0x1F4DD]
                      ++ lit " Please manually update your .env file with: ZERODHA_ACCESS_TOKEN="
                      ++ ToString accessToken)).

(** ** The credential resolver *)

Definition placeholder : jsstring := lit "your_access_token".

(** The exchange branch of [getValidAccessToken]: the last [try] block. *)
Definition authenticate (auth : ZerodhaAuth) : Async JsVal :=
  try_catch
    (await accessToken <- interactiveAuth auth;
     step updateEnvFile accessToken;
     ret accessToken)
    (fun error =>
       throw (ErrError (lit "Authentication failed: " ++ error_message error))).

Definition getValidAccessToken (k s : jsstring) (existingToken : option jsstring)
    : Async JsVal :=
  let auth := new_ZerodhaAuth k s None in
  let startAuth :=
    step console_log ([0x1F504] ++ lit " Access token required. Starting authentication flow...");
    authenticate auth in
  match existingToken with
  | Some token =>
      if truthy_str token && negb (str_eqb token placeholder) then
        step console_log ([0x1F50D] ++ lit " Validating existing access token...");
        await isValid <- validateAccessToken k token None;
        if isValid then
          step console_log ([0x2705] ++ lit " Existing access token is valid");
          ret (JStr token)
        else
          step console_log ([0x274C] ++ lit " Existing access token is invalid or expired");
          startAuth
      else startAuth
  | None => startAuth
  end.

(** ** [class ZerodhaClient] and its construction at startup *)

(** [parseInt(s)]: leading white space, a sign, a [0x] prefix, then the
    longest run of digits; [NaN] when there is none.  The integer is kept
    exact, as the engine does up to 2^53. *)
Definition digit_value (c : N) : option N :=
  if (0x30 <=? c) && (c <=? 0x39) then Some (c - 0x30)
  else if (0x61 <=? c) && (c <=? 0x7A) then Some (c - 0x61 + 10)
  else if (0x41 <=? c) && (c <=? 0x5A) then Some (c - 0x41 + 10)
  else None.

Fixpoint parse_digits (radix : N) (acc : option N) (s : jsstring) : option N :=
  match s with
  | [] => acc
  | c :: s' =>
      match digit_value c with
      | Some d =>
          if d <? radix
          then parse_digits radix (Some (default 0 acc * radix + d)) s'
          else acc
      | None => acc
      end
  end.

Definition parseInt (s : jsstring) : JsVal :=
  let s0 := trimStart s in
  let '(negative, s1) :=
    match s0 with
    | c :: r => if c =? 0x2D then (true, r)
                else if c =? 0x2B then (false, r) else (false, s0)
    | [] => (false, s0)
    end in
  let '(radix, s2) :=
    match s1 with
    | c0 :: c1 :: r =>
        if (c0 =? 0x30) && ((c1 =? 0x78) || (c1 =? 0x58)) then (16, r)
        else (10, s1)
    | _ => (10, s1)
    end in
  match parse_digits radix None s2 with
  | None => JNaN
  | Some n => JNum (if negative then - Z.of_N n else Z.of_N n)%Z
  end.

(** A JavaScript object, as the finite map of its own properties; a
    property may be present and hold [undefined]. *)
Abbreviation JsObject := (gmap string JsVal).

(** [obj.p]: [undefined] when the property is absent. *)
Definition prop (obj : JsObject) (p : string) : JsVal :=
  default JUndefined (obj !! p).

(** [{ ...defaults, ...config }]: every own property of [config], whatever
    its value, then the properties of [defaults] that [config] lacks. *)
Definition spread_over (defaults config : JsObject) : JsObject :=
  config ∪ defaults.

(** The argument of [axios.create]. *)
Record AxiosRequestConfig : Type := {
  baseURL : JsVal;
  timeout : JsVal;
  headers : list (jsstring * jsstring);
}.

Record ZerodhaClient : Type := {
  config : JsObject;
  client : AxiosRequestConfig;
}.

Definition ZerodhaClient_defaults : JsObject :=
  <["baseUrl" := JStr (lit "https://api.kite.trade")]>
    (<["timeout" := JNum 30000]> ∅).

(** [new ZerodhaClient(config)]. *)
Definition new_ZerodhaClient (cfg : JsObject) : ZerodhaClient :=
  let this_config := spread_over ZerodhaClient_defaults cfg in
  {| config := this_config;
     client :=
       {| baseURL := prop this_config "baseUrl";
          timeout := prop this_config "timeout";
          headers :=
            [(lit "X-Kite-Version", lit "3");
             (lit "Authorization",
              lit "token " ++ ToString (prop this_config "apiKey") ++ lit ":"
                ++ ToString (prop this_config "accessToken"));
             (lit "Content-Type", lit "application/x-www-form-urlencoded")] |} |}.

(** [process.env]. *)
Abbreviation ProcessEnv := (gmap string jsstring).

(** [process.env.NAME] as a value: [undefined] when unset. *)
Definition env_var (penv : ProcessEnv) (name : string) : JsVal :=
  match penv !! name with Some v => JStr v | None => JUndefined end.

(** The [config] literal of [initializeZerodhaClient]: all five properties
    are written, two of them possibly with the value [undefined]. *)
Definition startup_config (penv : ProcessEnv) (k s : jsstring) (accessToken : JsVal)
    : JsObject :=
  <["apiKey" := JStr k]>
    (<["apiSecret" := JStr s]>
       (<["accessToken" := accessToken]>
          (<["baseUrl" := env_var penv "ZERODHA_BASE_URL"]>
             (<["timeout" :=
                  match penv !! "REQUEST_TIMEOUT" with
                  | Some v => if truthy_str v then parseInt v else JUndefined
                  | None => JUndefined
                  end]> ∅)))).

(** [initializeZerodhaClient], up to the construction of the client (the
    connection test that follows it is left out). *)
Definition initializeZerodhaClient (penv : ProcessEnv) : Async ZerodhaClient :=
  match penv !! "ZERODHA_API_KEY", penv !! "ZERODHA_API_SECRET" with
  | Some k, Some s =>
      if truthy_str k && truthy_str s then
        try_catch
          (step console_log ([0x1F680] ++ lit " Initializing Zerodha MCP Server...");
           await accessToken <-
             getValidAccessToken k s (penv !! "ZERODHA_ACCESS_TOKEN");
           ret (new_ZerodhaClient (startup_config penv k s accessToken)))
          (fun error =>
             step console_error ([0x274C] ++ lit " Failed to initialize Zerodha client:")
                                (Some error);
             process_exit 1)
      else
        step console_error ([0x274C] ++ lit " Missing required Zerodha configuration. Please set ZERODHA_API_KEY and ZERODHA_API_SECRET in your environment variables.") None;
        process_exit 1
  | _, _ =>
      step console_error ([0x274C] ++ lit " Missing required Zerodha configuration. Please set ZERODHA_API_KEY and ZERODHA_API_SECRET in your environment variables.") None;
      process_exit 1
  end.

(** ** Observations on a run *)

Definition outcome_of {A} (r : Outcome A * Disk * list Event) : Outcome A := r.1.1.
Definition disk_of {A} (r : Outcome A * Disk * list Event) : Disk := r.1.2.
Definition trace_of {A} (r : Outcome A * Disk * list Event) : list Event := r.2.

Definition is_post (e : Event) : bool :=
  match e with AxiosPost _ _ _ _ => true | _ => false end.
Definition is_get (e : Event) : bool :=
  match e with AxiosGet _ _ _ => true | _ => false end.
Definition is_http (e : Event) : bool := is_post e || is_get e.
Definition is_question (e : Event) : bool :=
  match e with RlQuestion _ => true | _ => false end.
Definition is_read (e : Event) : bool :=
  match e with FsReadFile _ => true | _ => false end.
Definition is_write (e : Event) : bool :=
  match e with FsWriteFile _ _ => true | _ => false end.

(** The events of one kind, in order. *)
Definition only (p : Event -> bool) (t : list Event) : list Event := List.filter p t.

(** [s.includes(key)]. *)
Fixpoint includes (key s : jsstring) : bool :=
  startsWith key s
  || match s with
     | [] => false
     | _ :: s' => includes key s'
     end.

(** An input that is empty or white space only. *)
Definition blank (s : jsstring) : bool := forallb isTrimmed s.

(** The request the probe sends for a token. *)
Definition probe_url (url : option jsstring) : jsstring :=
  match url with
  | Some u => u
  | None => lit "https://api.kite.trade"
  end ++ lit "/user/profile".
Definition probe_headers (k accessToken : jsstring) : list (jsstring * jsstring) :=
  [(lit "Authorization", lit "token " ++ k ++ lit ":" ++ accessToken);
   (lit "X-Kite-Version", lit "3")].

(** The request of the token exchange. *)
Definition exchange_url : jsstring :=
  lit "https://api.kite.trade" ++ lit "/session/token".
Definition exchange_headers : list (jsstring * jsstring) :=
  [(lit "Content-Type", lit "application/x-www-form-urlencoded")].
Definition exchange_post (k s requestToken : jsstring) : Event :=
  AxiosPost exchange_url
    [(lit "api_key", k);
     (lit "request_token", requestToken);
     (lit "checksum", sha256_hex (k ++ requestToken ++ s))]
    exchange_headers 30000.

Definition LF : N := 0x0A.

(** The lines of a store, joined by line feeds. *)
Fixpoint unlines (ls : list jsstring) : jsstring :=
  match ls with
  | [] => []
  | [l] => l
  | l :: ls' => l ++ LF :: unlines ls'
  end.

(** The lines of a text: the pieces between its line feeds. *)
Fixpoint split_lines (s : jsstring) : list jsstring :=
  match s with
  | [] => [[]]
  | c :: s' =>
      if c =? LF then [] :: split_lines s'
      else match split_lines s' with
           | [] => [[c]]
           | l :: ls => (c :: l) :: ls
           end
  end.

Definition request_prompt : jsstring := lit "Please paste the request_token here: ".

(** What [interactiveAuth] prints before it asks. *)
Definition auth_banner (this : ZerodhaAuth) : list Event :=
  [ConsoleLog ([0x0A; 0x1F510] ++ lit " Zerodha Authentication Required");
   ConsoleLog (lit "=====================================");
   ConsoleLog (lit "1. Open this URL in your browser:");
   ConsoleLog (lit "   " ++ getLoginUrl this);
   ConsoleLog (lit "2. Complete the login process");
   ConsoleLog (lit "3. Copy the request_token from the redirect URL");
   ConsoleLog (lit "4. The URL will look like: https://your-redirect-url?request_token=XXXXXX&action=login&status=success");
   ConsoleLog ([0x0A] ++ lit "Waiting for request token..." ++ [0x0A])].

(** The POST of [generateAccessToken]. *)
Definition session_post (this : ZerodhaAuth) (requestToken : jsstring) : Event :=
  AxiosPost (baseUrl this ++ lit "/session/token")
    (exchange_formData this requestToken) exchange_headers 30000.

(** A fulfilled exchange: the broker answered the POST with a success
    envelope whose [data.access_token] is [v]. *)
Definition minted (this : ZerodhaAuth) (requestToken : jsstring) (env : Env)
    (v : JsVal) : Prop :=
  exists resp payload,
    net_post env (baseUrl this ++ lit "/session/token")
      (exchange_formData this requestToken) = AxiosResolve resp
    /\ get_prop resp (lit "status") = inr (JStr (lit "success"))
    /\ get_prop resp (lit "data") = inr payload
    /\ get_prop payload (lit "access_token") = inr v.

(** Where the store lives. *)
Definition env_path (env : Env) : jsstring := path_resolve (cwd env) (lit ".env").

(** The text [updateEnvFile] starts from: the file, or the template. *)
Definition store_text (d : Disk) : jsstring := default env_template d.

(** What the probe answers for a token in a given world. *)
Definition probe_result (k token : jsstring) (env : Env) (d : Disk) : Outcome bool :=
  outcome_of (validateAccessToken k token None env d).

(** The resolver has no usable token: none was given, it is empty or the
    placeholder, or the probe reports it invalid. *)
Definition exchange_needed (k : jsstring) (existingToken : option jsstring)
    (env : Env) (d : Disk) : Prop :=
  match existingToken with
  | None => True
  | Some token =>
      token = [] \/ token = placeholder
      \/ probe_result k token env d = Resolved false
  end.

(** A world for examples: fixed answers of the broker and of the operator. *)
Definition world (get post : AxiosResult) (answer : option jsstring)
    (failure : option JsError) : Env :=
  {| net_get := fun _ _ => get;
     net_post := fun _ _ => post;
     stdin_line := answer;
     cwd := lit "/srv/kitelink";
     write_error := failure |}.

Definition success_envelope (token : jsstring) : JsVal :=
  JObj [(lit "status", JStr (lit "success"));
        (lit "data",
         JObj [(lit "access_token", JStr token);
               (lit "public_token", JStr (lit "pub"));
               (lit "login_time", JStr (lit "2024-01-01 09:15:00"))])].

Definition network_down : AxiosResult :=
  AxiosReject (ErrAxios JUndefined (lit "connect ECONNREFUSED")).

(** The text of the lines before a given line, and of those after it. *)
Definition lines_prefix (ls : list jsstring) : jsstring :=
  flat_map (fun l => l ++ [LF]) ls.

Definition lines_suffix (ls : list jsstring) : jsstring :=
  match ls with
  | [] => []
  | _ => LF :: unlines ls
  end.

(** A replacement text in which no dollar sign occurs. *)
Definition dollar_free (s : jsstring) : bool :=
  forallb (fun c => negb (c =? 0x24)) s.


(** ** The bytes of the store *)









(** The [.env] file as the file system holds it: its bytes, [None] when
    it cannot be read. *)
Abbreviation File := (option (list N)).



(** ** Further observations *)

(** The same world with another fate for the write of the store. *)
Definition with_write_error (env : Env) (failure : option JsError) : Env :=
  {| net_get := net_get env;
     net_post := net_post env;
     stdin_line := stdin_line env;
     cwd := cwd env;
     write_error := failure |}.

(** A text without line terminators. *)
Definition one_line (s : jsstring) : bool :=
  forallb (fun c => negb (isLineTerminator c)) s.

(** A lower-case hexadecimal digit. *)
Definition is_hex_digit (c : N) : bool :=
  ((0x30 <=? c) && (c <=? 0x39)) || ((0x61 <=? c) && (c <=? 0x66)).

Definition is_log (e : Event) : bool :=
  match e with ConsoleLog _ => true | _ => false end.

(** What the resolver emits before it starts an exchange: nothing, or the
    probe of a token that turns out invalid. *)
Definition resolver_prefix (k : jsstring) (existingToken : option jsstring)
    : list Event :=
  match existingToken with
  | Some token =>
      if truthy_str token && negb (str_eqb token placeholder) then
        [ConsoleLog ([0x1F50D] ++ lit " Validating existing access token...");
         AxiosGet (probe_url None) (probe_headers k token) 10000;
         ConsoleLog ([0x274C] ++ lit " Existing access token is invalid or expired")]
      else []
  | None => []
  end.

Definition start_line : Event :=
  ConsoleLog ([0x1F504] ++ lit " Access token required. Starting authentication flow...").

(** The number of occurrences of a character. *)
Definition count_char (c : N) (s : jsstring) : nat :=
  length (List.filter (N.eqb c) s).

(** * Properties *)

(** ** Strings *)

Lemma str_eqb_eq a b : str_eqb a b = true <-> a = b.
Proof. unfold str_eqb. apply bool_decide_eq_true. Qed.

Lemma str_eqb_neq a b : str_eqb a b = false <-> a <> b.
Proof. unfold str_eqb. apply bool_decide_eq_false. Qed.

Lemma trimStart_blank s : blank s = true -> trimStart s = [].
Proof.
  induction s as [|c s IH]; simpl; [done|].
  intros [Hc Hs]%andb_true_iff. rewrite Hc. auto.
Qed.

Lemma trimStart_nil_blank s : trimStart s = [] -> blank s = true.
Proof.
  induction s as [|c s IH]; simpl; [done|].
  destruct (isTrimmed c); [auto | discriminate].
Qed.

Lemma trimStart_head s c r : trimStart s = c :: r -> isTrimmed c = false.
Proof.
  induction s as [|a s IH]; simpl; [discriminate|].
  destruct (isTrimmed a) eqn:Ha; [auto|]. intros [= -> _]. exact Ha.
Qed.

Lemma trimStart_suffix s : exists p, s = p ++ trimStart s /\ blank p = true.
Proof.
  induction s as [|a s [p [Hp Hb]]]; simpl.
  - by exists [].
  - destruct (isTrimmed a) eqn:Ha.
    + exists (a :: p). simpl. rewrite Ha, Hb. split; [by f_equal | done].
    + by exists [].
Qed.

Lemma blank_app a b : blank (a ++ b) = blank a && blank b.
Proof. unfold blank. apply forallb_app. Qed.

Lemma blank_rev s : blank (rev s) = blank s.
Proof.
  induction s as [|c s IH]; simpl; [done|].
  rewrite blank_app, IH. simpl. rewrite andb_true_r. apply andb_comm.
Qed.

(** [trim] gives the empty string exactly on blank inputs. *)
Lemma trim_nil_iff s : trim s = [] <-> blank s = true.
Proof.
  unfold trim, trimEnd. split.
  - intros H. apply (f_equal (@rev N)) in H. rewrite rev_involutive in H. simpl in H.
    apply trimStart_nil_blank in H. rewrite blank_rev in H.
    destruct (trimStart_suffix s) as [p [Hp Hb]].
    rewrite Hp, blank_app, Hb, H. done.
  - intros H. rewrite (trimStart_blank s H). done.
Qed.

Lemma trim_first s c r : trim s = c :: r -> isTrimmed c = false.
Proof.
  unfold trim, trimEnd. intros H.
  destruct (trimStart s) as [|a t] eqn:Ht; [discriminate|].
  pose proof (trimStart_head _ _ _ Ht) as Ha.
  destruct (trimStart_suffix (rev (a :: t))) as [p [Hp Hb]].
  apply (f_equal (@rev N)) in Hp. rewrite rev_involutive, rev_app_distr, H in Hp.
  simpl in Hp. injection Hp as -> _. exact Ha.
Qed.

Lemma trim_last s c r : trim s = r ++ [c] -> isTrimmed c = false.
Proof.
  unfold trim, trimEnd. intros H.
  apply (f_equal (@rev N)) in H. rewrite rev_involutive, rev_app_distr in H.
  simpl in H. by apply trimStart_head in H.
Qed.

(** ** The model on known values *)

Example sha256_hex_empty :
  sha256_hex []
  = lit "e3b0c44298fc1c149afbf4c8996fb92427ae41e4649b934ca495991b7852b855".
Proof. vm_compute. reflexivity. Qed.

Example sha256_hex_abc :
  sha256_hex (lit "abc")
  = lit "ba7816bf8f01cfea414140de5dae2223b00361a396177a9cb410ff61f20015ad".
Proof. vm_compute. reflexivity. Qed.

(** A message of two blocks. *)
Example sha256_hex_two_blocks :
  sha256_hex (lit "abcdbcdecdefdefgefghfghighijhijkijkljklmklmnlmnomnopnopq"
                ++ lit "abcdbcdecdefdefgefghfghighijhijkijkljklmklmnlmnomnopnopq")
  = lit "59f109d9533b2b70e7c3b814a2bd218f78ea5d3714455bc67987cf0d664399cf".
Proof. vm_compute. reflexivity. Qed.

Example trim_margins :
  trim ([0x09; 0x20; 0xFEFF] ++ lit "tok 123" ++ [0x2028; 0x0D; 0x0A]) = lit "tok 123".
Proof. vm_compute. reflexivity. Qed.

Example form_encode_reserved :
  form_encode (lit "a b&c=d/~" ++ [0xE9]) = lit "a+b%26c%3Dd%2F%7E%C3%A9".
Proof. vm_compute. reflexivity. Qed.

Example parseInt_values :
  parseInt (lit "  30000ms") = JNum 30000 /\ parseInt (lit "0x1F") = JNum 31
  /\ parseInt (lit "-12") = JNum (-12) /\ parseInt (lit "soon") = JNaN.
Proof. vm_compute. repeat split. Qed.

(** A whole run: a stale token, a broker that rejects the probe and then
    mints [fresh] for the pasted request token; the store ends up holding
    the new token and the resolver returns it. *)
Example resolver_fresh_exchange :
  let env := world network_down (AxiosResolve (success_envelope (lit "fresh")))
                   (Some (lit " tok123 ")) None in
  let r := getValidAccessToken (lit "abc") (lit "xyz") (Some (lit "stale")) env
             (Some (unlines [lit "ZERODHA_API_KEY=abc"; lit "ZERODHA_ACCESS_TOKEN=stale"])) in
  outcome_of r = Resolved (JStr (lit "fresh"))
  /\ disk_of r
     = Some (unlines [lit "ZERODHA_API_KEY=abc"; lit "ZERODHA_ACCESS_TOKEN=fresh"])
  /\ only is_http (trace_of r)
     = [AxiosGet (probe_url None) (probe_headers (lit "abc") (lit "stale")) 10000;
        exchange_post (lit "abc") (lit "xyz") (lit "tok123")].
Proof. vm_compute. repeat split. Qed.

(** A failed exchange is fatal and leaves the store alone. *)
Example resolver_rejected_exchange :
  let env := world network_down network_down (Some (lit "tok123")) None in
  let r := getValidAccessToken (lit "abc") (lit "xyz") None env None in
  outcome_of r
  = Rejected (ErrError (lit "Authentication failed: Failed to generate access token: connect ECONNREFUSED"))
  /\ disk_of r = None /\ only is_write (trace_of r) = [].
Proof. vm_compute. repeat split. Qed.

Opaque lit sha256_hex trim.

Lemma strict_eq_str_true v s : strict_eq_str v s = true <-> v = JStr s.
Proof.
  destruct v; simpl; try (split; [discriminate | congruence]).
  rewrite str_eqb_eq. split; congruence.
Qed.

(** ** The validation probe *)

(** Every run of the probe: one GET, then a boolean. *)
Lemma validateAccessToken_run
    (k accessToken : jsstring) (url : option jsstring) (env : Env) (d : Disk) :
  exists b : bool,
    validateAccessToken k accessToken url env d
      = (Resolved b, d, [AxiosGet (probe_url url) (probe_headers k accessToken) 10000])
    /\ (b = true <->
        exists data,
          net_get env (probe_url url) (probe_headers k accessToken) = AxiosResolve data
          /\ get_prop data (lit "status") = inr (JStr (lit "success"))).
Proof.
  unfold validateAccessToken, try_catch, bind, axios_get.
  fold (probe_url url). fold (probe_headers k accessToken).
  destruct (net_get env (probe_url url) (probe_headers k accessToken)) as [data|e] eqn:Hget.
  - destruct (get_prop data (lit "status")) as [e|status] eqn:Hstatus; simpl.
    + exists false. split; [done|]. split; [discriminate|].
      intros (data' & [= <-] & H). congruence.
    + exists (strict_eq_str status (lit "success")). split; [done|].
      rewrite strict_eq_str_true. split.
      * intros ->. by exists data.
      * intros (data' & [= <-] & H). congruence.
  - simpl. exists false. split; [done|]. split; [discriminate|].
    intros (data' & [=] & _).
Qed.

(** C5. The probe never throws and always settles: whatever the profile
    request does (a response of any shape, an error, a timeout),
    [validateAccessToken] is fulfilled with a boolean, after exactly one GET
    and without touching the store; the boolean is [true] exactly when the
    request completed and [response.data.status] is the string [success],
    and [false] on every other outcome. *)
Theorem validateAccessToken_never_throws
    (k accessToken : jsstring) (url : option jsstring) (env : Env) (d : Disk) :
  exists b : bool,
    validateAccessToken k accessToken url env d
      = (Resolved b, d, [AxiosGet (probe_url url) (probe_headers k accessToken) 10000])
    /\ (b = true <->
        exists data,
          net_get env (probe_url url) (probe_headers k accessToken) = AxiosResolve data
          /\ get_prop data (lit "status") = inr (JStr (lit "success"))).
Proof. apply validateAccessToken_run. Qed.

(** ** Runs of the token exchange *)

Lemma blank_condition s :
  negb (truthy_str s) || str_eqb (trim s) [] = blank s.
Proof.
  destruct (blank s) eqn:Hb.
  - apply orb_true_iff. right. apply str_eqb_eq. by apply trim_nil_iff.
  - apply orb_false_iff. split.
    + destruct s; [discriminate | done].
    + apply str_eqb_neq. intros H%trim_nil_iff. congruence.
Qed.

(** One exchange request: always exactly one POST, never pending, and a
    fulfilled call hands back [response.data.data] of a success envelope. *)
Lemma generateAccessToken_run this requestToken env d :
  exists o,
    generateAccessToken this requestToken env d
      = (o, d, [AxiosPost (baseUrl this ++ lit "/session/token")
                  (exchange_formData this requestToken) exchange_headers 30000])
    /\ o <> Pending
    /\ forall v, o = Resolved v ->
         exists resp,
           net_post env (baseUrl this ++ lit "/session/token")
             (exchange_formData this requestToken) = AxiosResolve resp
           /\ get_prop resp (lit "status") = inr (JStr (lit "success"))
           /\ get_prop resp (lit "data") = inr v.
Proof.
  unfold generateAccessToken, try_catch, bind, axios_post.
  fold exchange_headers.
  destruct (net_post env _ _) as [resp|e] eqn:Hpost.
  - destruct (get_prop resp (lit "status")) as [e|status] eqn:Hstatus; simpl.
    + destruct e; eexists; (split; [reflexivity|]);
        (split; [discriminate | intros v [=]]).
    + destruct (strict_eq_str status (lit "success")) eqn:Hs.
      * apply strict_eq_str_true in Hs. subst status.
        destruct (get_prop resp (lit "data")) as [e|payload] eqn:Hdata; simpl.
        -- destruct e; eexists; (split; [reflexivity|]);
             (split; [discriminate | intros v [=]]).
        -- eexists. split; [reflexivity|]. split; [discriminate|].
           intros v [= <-]. by exists resp.
      * destruct (get_prop resp (lit "message")) as [e|message] eqn:Hmsg; simpl.
        -- destruct e; eexists; (split; [reflexivity|]);
             (split; [discriminate | intros v [=]]).
        -- eexists. split; [reflexivity|]. split; [discriminate | intros v [=]].
  - destruct e; simpl; eexists; (split; [reflexivity|]);
      (split; [discriminate | intros v [=]]).
Qed.

Opaque generateAccessToken.

(** The shape of every run of the interactive exchange: the banner, one
    question, and then nothing (input closed), a rejection without any
    request (blank answer), or one POST carrying the trimmed answer. *)
Lemma interactiveAuth_run this env d :
  exists o tr,
    interactiveAuth this env d
      = (o, d, auth_banner this ++ RlQuestion request_prompt :: tr)
    /\ match stdin_line env with
       | None => o = Pending /\ tr = []
       | Some s =>
           if blank s then
             o = Rejected (ErrError (lit "Request token is required"))
             /\ tr = [RlClose]
           else
             exists tail,
               tr = RlClose
                      :: ConsoleLog ([0x1F504] ++ lit " Generating access token...")
                      :: session_post this (trim s) :: tail
               /\ only is_post tail = [] /\ only is_get tail = []
               /\ only is_question tail = []
               /\ only is_read tail = [] /\ only is_write tail = []
               /\ o <> Pending
               /\ forall v, o = Resolved v -> minted this (trim s) env v
       end.
Proof.
  unfold interactiveAuth, bind, console_log, emit, rl_question. simpl.
  fold request_prompt.
  destruct (stdin_line env) as [s|] eqn:Hin; simpl.
  2: { eexists _, _. split; [reflexivity|]. done. }
  rewrite blank_condition. destruct (blank s) eqn:Hb; simpl.
  { eexists _, _. split; [reflexivity|]. done. }
  unfold try_catch, bind, emit. simpl.
  destruct (generateAccessToken_run this (trim s) env d) as (o & Hrun & Hnp & Hres).
  rewrite Hrun. fold (session_post this (trim s)).
  destruct o as [a|e|]; simpl; [| |done].
  - destruct (get_prop a (lit "access_token")) as [e|v] eqn:Hv; simpl.
    + eexists _, _. split; [reflexivity|]. eexists. split; [reflexivity|].
      repeat split; try discriminate.
    + eexists _, _. split; [reflexivity|]. eexists. split; [reflexivity|].
      repeat split; try discriminate.
      intros v' [= <-]. destruct (Hres a eq_refl) as (resp & H1 & H2 & H3).
      by exists resp, a.
  - eexists _, _. split; [reflexivity|]. exists []. split; [reflexivity|].
    repeat split; try discriminate.
Qed.

(** ** Runs of persistence and of the resolver *)

Lemma only_app p a b : only p (a ++ b) = only p a ++ only p b.
Proof. apply List.filter_app. Qed.

Lemma session_post_default k s r :
  session_post (new_ZerodhaAuth k s None) r = exchange_post k s r.
Proof. reflexivity. Qed.

(** Persistence always completes: one read, one write attempt of the
    updated text, and a warning instead of an error when the write fails. *)
Lemma updateEnvFile_run accessToken env d :
  updateEnvFile accessToken env d =
    let content := updatedContent (store_text d) accessToken in
    match write_error env with
    | None =>
        (Resolved tt, Some content,
         [FsReadFile (env_path env); FsWriteFile (env_path env) content;
          ConsoleLog ([0x1F4DD] ++ lit " Access token saved to .env file")])
    | Some e =>
        (Resolved tt, d,
         [FsReadFile (env_path env); FsWriteFile (env_path env) content;
          ConsoleWarn ([0x26A0; 0xFE0F] ++ lit "  Could not update .env file:") e;
          ConsoleLog ([0x1F4DD]
                        ++ lit " Please manually update your .env file with: ZERODHA_ACCESS_TOKEN="
                        ++ ToString accessToken)])
    end.
Proof.
  unfold updateEnvFile, try_catch, bind, process_cwd, fs_readFile, fs_writeFile,
    console_log, console_warn, emit, ret, env_path, store_text.
  destruct d as [c|]; destruct (write_error env); reflexivity.
Qed.

Opaque updateEnvFile interactiveAuth.

Lemma authenticate_run auth env d :
  authenticate auth env d =
    match interactiveAuth auth env d with
    | (Resolved v, d1, t1) =>
        (Resolved v, disk_of (updateEnvFile v env d1),
         t1 ++ trace_of (updateEnvFile v env d1))
    | (Rejected e, d1, t1) =>
        (Rejected (ErrError (lit "Authentication failed: " ++ error_message e)), d1, t1)
    | (Pending, d1, t1) => (Pending, d1, t1)
    end.
Proof.
  unfold authenticate, try_catch, bind.
  destruct (interactiveAuth auth env d) as [[[v|e|] d1] t1]; simpl; try done.
  - rewrite updateEnvFile_run. destruct (write_error env); simpl;
      by rewrite ?app_nil_r.
  - by rewrite ?app_nil_r.
Qed.

Opaque authenticate.

(** When an exchange is needed the resolver runs it once, after a prefix
    that holds at most the probe's GET and console lines. *)
Lemma getValidAccessToken_exchange k s existingToken env d :
  exchange_needed k existingToken env d ->
  exists pre,
    getValidAccessToken k s existingToken env d
      = (outcome_of (authenticate (new_ZerodhaAuth k s None) env d),
         disk_of (authenticate (new_ZerodhaAuth k s None) env d),
         pre ++ ConsoleLog ([0x1F504] ++ lit " Access token required. Starting authentication flow...")
             :: trace_of (authenticate (new_ZerodhaAuth k s None) env d))
    /\ only is_post pre = [] /\ only is_question pre = []
    /\ only is_read pre = [] /\ only is_write pre = []
    /\ (match existingToken with
        | None => pre = []
        | Some token => token = [] \/ token = placeholder -> pre = []
        end).
Proof.
  intros Hneed. unfold getValidAccessToken.
  set (auth := new_ZerodhaAuth k s None).
  assert (Hstart : forall d0,
    bind (console_log ([0x1F504] ++ lit " Access token required. Starting authentication flow..."))
         (fun _ => authenticate auth) env d0
    = (outcome_of (authenticate auth env d0), disk_of (authenticate auth env d0),
       ConsoleLog ([0x1F504] ++ lit " Access token required. Starting authentication flow...")
         :: trace_of (authenticate auth env d0))).
  { intros d0. unfold bind, console_log, emit. simpl.
    by destruct (authenticate auth env d0) as [[o d1] t1]. }
  destruct existingToken as [token|].
  2: { exists []. rewrite Hstart. done. }
  destruct (truthy_str token && negb (str_eqb token placeholder)) eqn:Hcond.
  2: { exists []. rewrite Hstart. done. }
  apply andb_true_iff in Hcond as [Ht Hp].
  apply negb_true_iff, str_eqb_neq in Hp.
  destruct Hneed as [-> | [-> | Hprobe]]; [done | done |].
  unfold probe_result in Hprobe.
  destruct (validateAccessToken_run k token None env d) as (b & Hrun & _).
  rewrite Hrun in Hprobe. injection Hprobe as ->.
  unfold bind at 1. unfold console_log at 1, emit. simpl.
  unfold bind at 1. rewrite Hrun.
  unfold bind at 1. unfold console_log at 1, emit. simpl.
  rewrite Hstart. simpl.
  eexists [_; _; _]. split; [reflexivity|].
  repeat split; try done.
  intros [-> | ->]; [done | congruence].
Qed.


Ltac run_red :=
  lazy beta iota zeta delta [fst snd outcome_of disk_of trace_of].

Ltac only_simpl :=
  repeat (rewrite only_app; simpl);
  repeat match goal with
         | H : only _ _ = [] |- _ => rewrite H
         end; simpl.

(** ** The credential resolver *)


(** A usable token that the probe accepts is returned as it is. *)
Lemma getValidAccessToken_valid k s token env d :
  token <> [] -> token <> placeholder ->
  probe_result k token env d = Resolved true ->
  getValidAccessToken k s (Some token) env d
    = (Resolved (JStr token), d,
       [ConsoleLog ([0x1F50D] ++ lit " Validating existing access token...");
        AxiosGet (probe_url None) (probe_headers k token) 10000;
        ConsoleLog ([0x2705] ++ lit " Existing access token is valid")]).
Proof.
  intros Hne Hnp Hprobe. unfold getValidAccessToken.
  assert (truthy_str token && negb (str_eqb token placeholder) = true) as ->.
  { apply andb_true_iff. split; [by destruct token|].
    by apply negb_true_iff, str_eqb_neq. }
  unfold probe_result in Hprobe.
  destruct (validateAccessToken_run k token None env d) as (b & Hrun & _).
  rewrite Hrun in Hprobe. injection Hprobe as ->.
  unfold bind at 1. unfold console_log at 1, emit.
  unfold bind at 1. rewrite Hrun. reflexivity.
Qed.

(** C3. An existing token that is present (a non-empty string), is not the
    placeholder, and for which the probe returns true is returned unchanged:
    the resolver is fulfilled with that very string, sends the probe's GET
    and nothing else, makes no POST, asks nothing, and neither reads nor
    writes the store. *)
Theorem getValidAccessToken_keeps_valid_token
    (k s token : jsstring) (env : Env) (d : Disk) :
  token <> [] -> token <> placeholder ->
  probe_result k token env d = Resolved true ->
  let r := getValidAccessToken k s (Some token) env d in
  outcome_of r = Resolved (JStr token)
  /\ disk_of r = d
  /\ only is_post (trace_of r) = []
  /\ only is_write (trace_of r) = []
  /\ only is_read (trace_of r) = []
  /\ only is_question (trace_of r) = []
  /\ only is_get (trace_of r) = [AxiosGet (probe_url None) (probe_headers k token) 10000].
Proof.
  intros Hne Hnp Hprobe r. subst r.
  rewrite (getValidAccessToken_valid k s token env d Hne Hnp Hprobe).
  repeat split.
Qed.

(** The scenario of the specification: the stored token [validTok], a
    broker that answers the profile request with [{status: "success"}]. *)
Lemma getValidAccessToken_keeps_valid_token_witness :
  let env := world (AxiosResolve (JObj [(lit "status", JStr (lit "success"))]))
                   network_down None None in
  let r := getValidAccessToken (lit "abc") (lit "xyz") (Some (lit "validTok")) env None in
  outcome_of r = Resolved (JStr (lit "validTok"))
  /\ disk_of r = None
  /\ only is_post (trace_of r) = []
  /\ only is_write (trace_of r) = []
  /\ only is_read (trace_of r) = []
  /\ only is_question (trace_of r) = []
  /\ only is_get (trace_of r)
     = [AxiosGet (probe_url None) (probe_headers (lit "abc") (lit "validTok")) 10000].
Proof.
  apply (getValidAccessToken_keeps_valid_token (lit "abc") (lit "xyz") (lit "validTok")).
  - vm_compute. discriminate.
  - vm_compute. discriminate.
  - vm_compute. reflexivity.
Defined.

(** Every exchange opens with the banner and the question, and none sends
    a GET. *)
Lemma authenticate_trace auth env d :
  exists rest,
    trace_of (authenticate auth env d)
      = auth_banner auth ++ RlQuestion request_prompt :: rest
    /\ only is_get (trace_of (authenticate auth env d)) = [].
Proof.
  rewrite authenticate_run.
  destruct (interactiveAuth_run auth env d) as (o & tr & Hauth & Hcases).
  rewrite Hauth. clear Hauth.
  assert (Hg : only is_get tr = []).
  { destruct (stdin_line env) as [answer|].
    - destruct (blank answer).
      + by destruct Hcases as [_ ->].
      + destruct Hcases as (tail & -> & _ & Htg & _). simpl. exact Htg.
    - by destruct Hcases as [_ ->]. }
  destruct o as [v|e|]; run_red.
  - rewrite updateEnvFile_run.
    destruct (write_error env); run_red;
      (eexists; split; [by rewrite <- app_assoc|]); by only_simpl.
  - eexists; split; [reflexivity|]. by only_simpl.
  - eexists; split; [reflexivity|]. by only_simpl.
Qed.

(** C4. When the existing token is absent (not given, or the empty
    string) or is the placeholder [your_access_token], the resolver goes
    straight to the interactive exchange: its run opens with the
    authentication banner and the question to the operator, and it holds no
    GET at all, so the probe is never called. *)
Theorem getValidAccessToken_skips_probe
    (k s : jsstring) (existingToken : option jsstring) (env : Env) (d : Disk) :
  existingToken = None \/ existingToken = Some [] \/ existingToken = Some placeholder ->
  let r := getValidAccessToken k s existingToken env d in
  only is_get (trace_of r) = []
  /\ exists rest,
       trace_of r
       = ConsoleLog ([0x1F504] ++ lit " Access token required. Starting authentication flow...")
           :: auth_banner (new_ZerodhaAuth k s None)
           ++ RlQuestion request_prompt :: rest.
Proof.
  intros Habsent r. subst r.
  assert (Hneed : exchange_needed k existingToken env d).
  { destruct Habsent as [-> | [-> | ->]]; simpl; auto. }
  destruct (getValidAccessToken_exchange k s existingToken env d Hneed)
    as (pre & Hrun & _ & _ & _ & _ & Hpre).
  assert (pre = []) as ->.
  { destruct Habsent as [-> | [-> | ->]]; auto. }
  rewrite Hrun.
  destruct (authenticate_trace (new_ZerodhaAuth k s None) env d) as (rest & Htr & Hg).
  unfold trace_of in *. simpl. split.
  - exact Hg.
  - exists rest. by rewrite Htr.
Qed.

Lemma getValidAccessToken_skips_probe_witness :
  let env := world (AxiosResolve (JObj [(lit "status", JStr (lit "success"))]))
                   (AxiosResolve (success_envelope (lit "fresh")))
                   (Some (lit "tok123")) None in
  let r := getValidAccessToken (lit "abc") (lit "xyz") (Some placeholder) env None in
  only is_get (trace_of r) = []
  /\ exists rest,
       trace_of r
       = ConsoleLog ([0x1F504] ++ lit " Access token required. Starting authentication flow...")
           :: auth_banner (new_ZerodhaAuth (lit "abc") (lit "xyz") None)
           ++ RlQuestion request_prompt :: rest.
Proof.
  apply (getValidAccessToken_skips_probe (lit "abc") (lit "xyz") (Some placeholder)).
  right. right. reflexivity.
Defined.


(** ** The interactive exchange *)

(** C6. A pasted request token that is empty or made of white space only
    makes [interactiveAuth] fail at once with the error [Request token is
    required]: the run is the banner, the question and the closing of the
    terminal, with no HTTP request of any kind (so neither
    [generateAccessToken] nor the POST to [/session/token] happens) and the
    store untouched. *)
Theorem interactiveAuth_blank_token_fails_fast
    (this : ZerodhaAuth) (env : Env) (d : Disk) (pasted : jsstring) :
  stdin_line env = Some pasted -> blank pasted = true ->
  interactiveAuth this env d
    = (Rejected (ErrError (lit "Request token is required")), d,
       auth_banner this ++ [RlQuestion request_prompt; RlClose])
  /\ only is_http (trace_of (interactiveAuth this env d)) = [].
Proof.
  intros Hin Hb.
  destruct (interactiveAuth_run this env d) as (o & tr & Hauth & Hcases).
  rewrite Hin, Hb in Hcases. destruct Hcases as [-> ->].
  rewrite Hauth. split; reflexivity.
Qed.

Lemma interactiveAuth_blank_token_fails_fast_witness :
  let this := new_ZerodhaAuth (lit "abc") (lit "xyz") None in
  let env := world network_down (AxiosResolve (success_envelope (lit "fresh")))
                   (Some ([0x20; 0x09; 0xA0; 0x3000] ++ lit "  ")) None in
  interactiveAuth this env None
    = (Rejected (ErrError (lit "Request token is required")), None,
       auth_banner this ++ [RlQuestion request_prompt; RlClose])
  /\ only is_http (trace_of (interactiveAuth this env None)) = [].
Proof.
  intros this env.
  apply (interactiveAuth_blank_token_fails_fast this env None
           ([0x20; 0x09; 0xA0; 0x3000] ++ lit "  ")).
  - reflexivity.
  - vm_compute. reflexivity.
Defined.

(** Whatever token is stored, the only POST a resolver run can hold is
    the exchange of the trimmed answer. *)
Lemma getValidAccessToken_posts k s existingToken env d pasted :
  stdin_line env = Some pasted -> blank pasted = false ->
  only is_post (trace_of (getValidAccessToken k s existingToken env d)) = []
  \/ only is_post (trace_of (getValidAccessToken k s existingToken env d))
     = [exchange_post k s (trim pasted)].
Proof.
  intros Hin Hb.
  assert (Hex : exchange_needed k existingToken env d ->
    only is_post (trace_of (getValidAccessToken k s existingToken env d))
    = [exchange_post k s (trim pasted)]).
  { intros Hneed.
    destruct (getValidAccessToken_exchange k s existingToken env d Hneed)
      as (pre & Hrun & Hpost & _).
    rewrite Hrun, authenticate_run. clear Hrun.
    destruct (interactiveAuth_run (new_ZerodhaAuth k s None) env d)
      as (o & tr & Hauth & Hcases).
    rewrite Hauth, Hin, Hb in *. clear Hauth.
    destruct Hcases as (tail & -> & Htp & _).
    destruct o as [v|e|]; run_red.
    - rewrite updateEnvFile_run. destruct (write_error env); run_red; by only_simpl.
    - by only_simpl.
    - by only_simpl. }
  destruct existingToken as [token|]; [|right; by apply Hex].
  destruct (decide (token = [])) as [->|Hne]; [right; apply Hex; by left|].
  destruct (decide (token = placeholder)) as [->|Hnp];
    [right; apply Hex; right; by left|].
  destruct (validateAccessToken_run k token None env d) as (b & Hrun & _).
  destruct b.
  - left. rewrite (getValidAccessToken_valid k s token env d Hne Hnp); [done|].
    unfold probe_result. by rewrite Hrun.
  - right. apply Hex. right. right. unfold probe_result. by rewrite Hrun.
Qed.

(** C10. For a pasted request token whose trimmed form is not empty, the
    exchange works on the trimmed string: the one POST of
    [interactiveAuth] carries [request_token] equal to [trim(input)] and
    the checksum SHA-256 hex of [apiKey + trim(input) + apiSecret]; the
    same holds for every POST of a whole resolver run; and [trim(input)]
    neither begins nor ends with a white-space character, so the pasted
    margins never reach the exchange. *)
Theorem interactiveAuth_sends_trimmed_token
    (this : ZerodhaAuth) (env : Env) (d : Disk) (pasted : jsstring) :
  stdin_line env = Some pasted -> trim pasted <> [] ->
  only is_post (trace_of (interactiveAuth this env d))
    = [AxiosPost (baseUrl this ++ lit "/session/token")
         [(lit "api_key", apiKey this);
          (lit "request_token", trim pasted);
          (lit "checksum", sha256_hex (apiKey this ++ trim pasted ++ apiSecret this))]
         exchange_headers 30000]
  /\ (forall existingToken e,
        In e (only is_post
                (trace_of (getValidAccessToken (apiKey this) (apiSecret this)
                             existingToken env d))) ->
        e = exchange_post (apiKey this) (apiSecret this) (trim pasted))
  /\ (forall c rest, trim pasted = c :: rest -> isTrimmed c = false)
  /\ (forall c rest, trim pasted = rest ++ [c] -> isTrimmed c = false).
Proof.
  intros Hin Hne.
  assert (Hb : blank pasted = false).
  { destruct (blank pasted) eqn:Hb; [|done]. by apply trim_nil_iff in Hb. }
  split; [|split; [|split]].
  - destruct (interactiveAuth_run this env d) as (o & tr & Hauth & Hcases).
    rewrite Hin, Hb in Hcases. destruct Hcases as (tail & -> & Htp & _).
    rewrite Hauth. run_red. by only_simpl.
  - intros existingToken e He.
    destruct (getValidAccessToken_posts (apiKey this) (apiSecret this)
                existingToken env d pasted Hin Hb) as [H|H];
      rewrite H in He; simpl in He; [done|]. by destruct He.
  - apply trim_first.
  - apply trim_last.
Qed.

Lemma interactiveAuth_sends_trimmed_token_witness :
  let this := new_ZerodhaAuth (lit "abc") (lit "xyz") None in
  let env := world network_down (AxiosResolve (success_envelope (lit "fresh")))
                   (Some ([0x20; 0x09] ++ lit "tok123" ++ [0x0D; 0x0A])) None in
  trim ([0x20; 0x09] ++ lit "tok123" ++ [0x0D; 0x0A]) = lit "tok123"
  /\ only is_post (trace_of (interactiveAuth this env None))
     = [exchange_post (lit "abc") (lit "xyz") (lit "tok123")].
Proof.
  intros this env.
  assert (Ht : trim ([0x20; 0x09] ++ lit "tok123" ++ [0x0D; 0x0A]) = lit "tok123").
  { vm_compute. reflexivity. }
  split; [exact Ht|].
  destruct (interactiveAuth_sends_trimmed_token this env None
              ([0x20; 0x09] ++ lit "tok123" ++ [0x0D; 0x0A])) as (Hp & _).
  - reflexivity.
  - rewrite Ht. vm_compute. discriminate.
  - rewrite Hp, Ht. reflexivity.
Defined.

(** ** The checksum *)

(** C2, as stated, fails: the request token [a] and the secret [aa]
    differ, yet swapping them leaves the hashed string [abcaaa], and so the
    digest, the same. *)
Lemma checksum_swap_collision :
  lit "a" <> lit "aa"
  /\ checksum (lit "abc") (lit "aa") (lit "a")
     = checksum (lit "abc") (lit "a") (lit "aa").
Proof.
  split.
  - vm_compute. discriminate.
  - unfold checksum. f_equal.
Qed.

(** C2, amended. The checksum submitted in the token exchange is the
    SHA-256 digest, in hexadecimal, of [apiKey + requestToken + apiSecret]
    with no separator.  Swapping the request token and the secret changes
    the hashed string exactly when [r + s] differs from [s + r]; when they
    are equal the digest is unchanged, even if [r] differs from [s].  In
    the scenario [abc], [xyz], [tok123] the swapped digest is different and
    the form-encoded body is exactly
    [api_key=abc&request_token=tok123&checksum=<sha256 hex of abctok123xyz>]. *)
Theorem checksum_is_sha256_of_concatenation :
  (forall this requestToken env d,
     only is_post (trace_of (generateAccessToken this requestToken env d))
     = [AxiosPost (baseUrl this ++ lit "/session/token")
          [(lit "api_key", apiKey this);
           (lit "request_token", requestToken);
           (lit "checksum",
            sha256_hex (apiKey this ++ requestToken ++ apiSecret this))]
          exchange_headers 30000])
  /\ (forall k r s,
        checksum_message k s r <> checksum_message k r s <-> s ++ r <> r ++ s)
  /\ (forall k r s, r ++ s = s ++ r -> checksum k s r = checksum k r s)
  /\ checksum (lit "abc") (lit "xyz") (lit "tok123")
     <> checksum (lit "abc") (lit "tok123") (lit "xyz")
  /\ checksum (lit "abc") (lit "tok123") (lit "xyz")
     = sha256_hex (lit "abctok123xyz")
  /\ URLSearchParams_toString
       (exchange_formData (new_ZerodhaAuth (lit "abc") (lit "xyz") None) (lit "tok123"))
     = lit "api_key=abc&request_token=tok123&checksum="
         ++ sha256_hex (lit "abctok123xyz")
  /\ sha256_hex (lit "abctok123xyz")
     = lit "fa80deef8ae654d844403ec6278b2ac9062e8214dc9c5a1107891b8f915cd9af".
Proof.
  split; [|split; [|split; [|split; [|split; [|split]]]]].
  - intros this requestToken env d.
    destruct (generateAccessToken_run this requestToken env d) as (o & Hrun & _).
    rewrite Hrun. reflexivity.
  - intros k r s. unfold checksum_message. split.
    + intros H Heq. apply H. by rewrite Heq.
    + intros H Heq. apply H. by apply app_inv_head in Heq.
  - intros k r s Heq. unfold checksum, checksum_message. by rewrite Heq.
  - vm_compute. discriminate.
  - vm_compute. reflexivity.
  - vm_compute. reflexivity.
  - vm_compute. reflexivity.
Qed.

Lemma checksum_is_sha256_of_concatenation_witness :
  checksum (lit "abc") (lit "aa") (lit "a") = checksum (lit "abc") (lit "a") (lit "aa").
Proof.
  destruct checksum_is_sha256_of_concatenation as (_ & _ & Hswap & _).
  apply Hswap. vm_compute. reflexivity.
Defined.

(** ** The regular expression of [updateEnvFile] *)

Lemma regex_exec_eq key s :
  regex_exec key s =
    if startsWith key s then
      let m := key ++ dot_star (drop (length key) s) in
      Some ([], m, drop (length m) s)
    else
      match s with
      | [] => None
      | c :: s' =>
          match regex_exec key s' with
          | Some (before, m, after) => Some (c :: before, m, after)
          | None => None
          end
      end.
Proof. destruct s; reflexivity. Qed.

Lemma startsWith_app key r : startsWith key (key ++ r) = true.
Proof. induction key as [|a key IH]; simpl; [done|]. by rewrite N.eqb_refl. Qed.

Lemma startsWith_inv key s :
  startsWith key s = true -> s = key ++ drop (length key) s.
Proof.
  revert s. induction key as [|a key IH]; intros [|b s]; simpl; try done.
  intros [Hab Hs]%andb_true_iff. apply N.eqb_eq in Hab. subst b.
  f_equal. by apply IH.
Qed.

Lemma startsWith_extend key s x :
  startsWith key s = true -> startsWith key (s ++ x) = true.
Proof.
  intros H. rewrite (startsWith_inv key s H), <- app_assoc. apply startsWith_app.
Qed.

(** A match cannot run over a character the key does not contain. *)
Lemma startsWith_before_sep key x c y :
  ~ In c key -> startsWith key (x ++ c :: y) = true -> startsWith key x = true.
Proof.
  revert x. induction key as [|a key IH]; intros x Hc; [done|].
  destruct x as [|b x]; simpl.
  - intros [Hac _]%andb_true_iff. apply N.eqb_eq in Hac. subst a.
    destruct Hc. by left.
  - intros [Hab Hs]%andb_true_iff. rewrite Hab. simpl.
    apply IH; [|done]. intros H. apply Hc. by right.
Qed.

Lemma includes_eq key s :
  includes key s
  = startsWith key s || match s with [] => false | _ :: s' => includes key s' end.
Proof. destruct s; reflexivity. Qed.

(** [includes] is the occurrence of the key as a substring. *)
Lemma includes_spec key s :
  includes key s = true <-> exists pre post, s = pre ++ key ++ post.
Proof.
  split.
  - induction s as [|c s IH]; simpl.
    + rewrite orb_false_r. intros H. exists [], []. simpl.
      rewrite (startsWith_inv key [] H) at 1. by destruct key.
    + intros [H|H]%orb_true_iff.
      * exists [], (drop (length key) (c :: s)). by apply startsWith_inv.
      * destruct (IH H) as (pre & post & ->). by exists (c :: pre), post.
  - intros (pre & post & ->). induction pre as [|c pre IH]; simpl.
    + by rewrite includes_eq, startsWith_app.
    + by rewrite IH, orb_true_r.
Qed.

Lemma dot_star_sep x c r :
  isLineTerminator c = true -> dot_star (x ++ c :: r) = dot_star x.
Proof.
  intros Hc. induction x as [|a x IH]; simpl.
  - by rewrite Hc.
  - destruct (isLineTerminator a); [done | by rewrite IH].
Qed.

Lemma dot_star_length x : (length (dot_star x) <= length x)%nat.
Proof.
  induction x as [|a x IH]; simpl; [done|].
  destruct (isLineTerminator a); simpl; lia.
Qed.

Lemma dot_star_prefix x : x = dot_star x ++ drop (length (dot_star x)) x.
Proof.
  induction x as [|a x IH]; simpl; [done|].
  destruct (isLineTerminator a); simpl; [done | by f_equal].
Qed.

Lemma dot_star_no_terminator x :
  forallb (fun c => negb (isLineTerminator c)) (dot_star x) = true.
Proof.
  induction x as [|a x IH]; simpl; [done|].
  destruct (isLineTerminator a) eqn:Ha; simpl; [done | by rewrite Ha].
Qed.

(** What a successful [exec] returns is a decomposition of the text, and
    the match is the key followed by characters of one line. *)
Lemma regex_exec_sound key s p m q :
  regex_exec key s = Some (p, m, q) ->
  s = p ++ m ++ q
  /\ exists v, m = key ++ v
               /\ forallb (fun c => negb (isLineTerminator c)) v = true.
Proof.
  revert p m q. induction s as [|c s IH]; intros p m q; rewrite regex_exec_eq.
  - destruct (startsWith key []) eqn:Hs; [|done].
    intros [= <- <- <-]. apply startsWith_inv in Hs.
    destruct key; [|done]. simpl. split; [done|]. by exists [].
  - destruct (startsWith key (c :: s)) eqn:Hs.
    + intros [= <- <- <-]. apply startsWith_inv in Hs. simpl. split.
      * rewrite Hs at 1. rewrite <- app_assoc. f_equal.
        rewrite length_app, <- drop_drop. apply dot_star_prefix.
      * eexists. split; [reflexivity|]. apply dot_star_no_terminator.
    + destruct (regex_exec key s) as [[[p' m'] q']|] eqn:He; [|done].
      intros [= <- <- <-]. destruct (IH _ _ _ eq_refl) as (-> & Hv).
      by split.
Qed.

Lemma regex_exec_includes key s :
  includes key s = true -> exists p m q, regex_exec key s = Some (p, m, q).
Proof.
  induction s as [|c s IH]; rewrite regex_exec_eq; simpl includes.
  - rewrite orb_false_r. intros ->. by eexists _, _, _.
  - destruct (startsWith key (c :: s)); [by eexists _, _, _|]. simpl.
    intros H. destruct (IH H) as (p & m & q & ->). by eexists _, _, _.
Qed.

Lemma regex_exec_none key s :
  includes key s = false -> regex_exec key s = None.
Proof.
  induction s as [|c s IH]; rewrite regex_exec_eq; simpl includes.
  - rewrite orb_false_r. by intros ->.
  - intros [-> H]%orb_false_iff. by rewrite (IH H).
Qed.

(** A match inside a line is not changed by what follows the line. *)
Lemma regex_exec_app_post key a rest p m q :
  ~ In LF key ->
  regex_exec key a = Some (p, m, q) ->
  regex_exec key (a ++ LF :: rest) = Some (p, m, q ++ LF :: rest).
Proof.
  intros HLF. revert p m q.
  induction a as [|c a IH]; intros p m q; rewrite regex_exec_eq;
    rewrite (regex_exec_eq key (_ ++ _)).
  - destruct (startsWith key []) eqn:Hs; [|done].
    apply startsWith_inv in Hs. destruct key; [|done].
    intros [= <- <- <-]. done.
  - destruct (startsWith key (c :: a)) eqn:Hs.
    + intros [= <- <- <-].
      rewrite (startsWith_extend _ _ _ Hs).
      pose proof (startsWith_inv _ _ Hs) as Ha.
      assert (Hlen : (length key <= length (c :: a))%nat).
      { rewrite Ha, length_app. lia. }
      cbv zeta.
      rewrite drop_app_le by exact Hlen.
      rewrite dot_star_sep by done.
      f_equal. f_equal.
      rewrite drop_app_le; [done|].
      rewrite length_app. pose proof (dot_star_length (drop (length key) (c :: a))) as Hd.
      rewrite length_drop in Hd. lia.
    + destruct (startsWith key ((c :: a) ++ LF :: rest)) eqn:Hs'.
      { apply startsWith_before_sep in Hs'; [congruence | done]. }
      destruct (regex_exec key a) as [[[p' m'] q']|] eqn:He; [|done].
      intros [= <- <- <-]. simpl. by rewrite (IH _ _ _ eq_refl).
Qed.

(** A line without the key is skipped. *)
Lemma regex_exec_skip_line key l rest :
  ~ In LF key -> includes key l = false ->
  regex_exec key (l ++ LF :: rest)
  = match regex_exec key rest with
    | Some (p, m, q) => Some (l ++ LF :: p, m, q)
    | None => None
    end.
Proof.
  intros HLF. induction l as [|c l IH]; simpl includes; intros Hinc;
    rewrite regex_exec_eq.
  - rewrite orb_false_r in Hinc. simpl.
    destruct key as [|a key]; [done|]. simpl.
    destruct (a =? LF) eqn:Ha.
    + apply N.eqb_eq in Ha. subst a. destruct HLF. by left.
    + simpl. by destruct (regex_exec (a :: key) rest) as [[[p m] q]|].
  - apply orb_false_iff in Hinc as [Hs Hinc].
    destruct (startsWith key ((c :: l) ++ LF :: rest)) eqn:Hs'.
    { apply startsWith_before_sep in Hs'; [congruence | done]. }
    simpl. rewrite (IH Hinc).
    by destruct (regex_exec key rest) as [[[p m] q]|].
Qed.

Lemma unlines_cons a l2 : unlines (a :: l2) = a ++ lines_suffix l2.
Proof. destruct l2; simpl; [by rewrite app_nil_r | done]. Qed.

Lemma unlines_cons_nonempty l ls :
  ls <> [] -> unlines (l :: ls) = l ++ LF :: unlines ls.
Proof. by destruct ls. Qed.

Lemma unlines_decompose l1 a l2 :
  unlines (l1 ++ a :: l2) = lines_prefix l1 ++ a ++ lines_suffix l2.
Proof.
  induction l1 as [|l l1 IH].
  - apply unlines_cons.
  - change ((l :: l1) ++ a :: l2) with (l :: (l1 ++ a :: l2)).
    rewrite unlines_cons_nonempty by (by destruct l1).
    rewrite IH. unfold lines_prefix. simpl. by rewrite <- !app_assoc.
Qed.

(** The first line that holds the key is where the expression matches. *)
Lemma regex_exec_lines key l1 a l2 p m q :
  ~ In LF key ->
  Forall (fun l => includes key l = false) l1 ->
  regex_exec key a = Some (p, m, q) ->
  regex_exec key (unlines (l1 ++ a :: l2))
  = Some (lines_prefix l1 ++ p, m, q ++ lines_suffix l2).
Proof.
  intros HLF Hl1 Ha. induction Hl1 as [|l l1 Hl Hl1 IH].
  - change ([] ++ a :: l2) with (a :: l2).
    rewrite unlines_cons. destruct l2 as [|b l2]; simpl lines_suffix.
    + by rewrite !app_nil_r.
    + by apply regex_exec_app_post.
  - change ((l :: l1) ++ a :: l2) with (l :: (l1 ++ a :: l2)).
    rewrite unlines_cons_nonempty by (by destruct l1).
    rewrite regex_exec_skip_line, IH by done.
    unfold lines_prefix. simpl. by rewrite <- !app_assoc.
Qed.

Lemma token_key_no_LF : ~ In LF token_key.
Proof. vm_compute. intuition discriminate. Qed.

Lemma split_lines_cons s : exists l ls, split_lines s = l :: ls.
Proof.
  destruct s as [|c s]; simpl; [by eexists _, _|].
  destruct (c =? LF); [by eexists _, _|].
  destruct (split_lines s); by eexists _, _.
Qed.

(** Every text is the join of its lines, none of which holds a line feed. *)
Lemma unlines_split_lines s :
  unlines (split_lines s) = s
  /\ Forall (fun l => ~ In LF l) (split_lines s).
Proof.
  induction s as [|c s [IH1 IH2]]; simpl.
  - split; [done|]. constructor; [by intros []|constructor].
  - destruct (c =? LF) eqn:Hc.
    + apply N.eqb_eq in Hc. subst c.
      destruct (split_lines_cons s) as (l & ls & E). rewrite E in *.
      split.
      * rewrite unlines_cons_nonempty by done. simpl. by f_equal.
      * constructor; [by intros []|done].
    + apply N.eqb_neq in Hc.
      destruct (split_lines s) as [|l ls] eqn:E.
      * destruct (split_lines_cons s) as (? & ? & ?). congruence.
      * split.
        -- rewrite <- IH1. by destruct ls.
        -- inversion IH2; subst. constructor; [|done].
           intros [H|H]; [congruence | done].
Qed.

Lemma GetSubstitution_plain m b a r :
  dollar_free r = true -> GetSubstitution m b a r = r.
Proof.
  induction r as [|c r IH]; simpl; [done|].
  intros [Hc Hr]%andb_true_iff. apply negb_true_iff in Hc.
  rewrite Hc. by rewrite IH.
Qed.

(** ** Persistence *)

Lemma updatedContent_no_match content accessToken :
  includes token_key content = false ->
  updatedContent content accessToken = content.
Proof.
  intros H. unfold updatedContent, replace_regex.
  by rewrite (regex_exec_none _ _ H).
Qed.

(** The update of a store, line by line: the lines before the first one
    that holds the key and all the lines after it are kept; in that line
    the match gives way to the expansion of the replacement text. *)
Lemma updatedContent_lines before line after accessToken p m q :
  Forall (fun l => includes token_key l = false) before ->
  regex_exec token_key line = Some (p, m, q) ->
  updatedContent (unlines (before ++ line :: after)) accessToken
  = unlines (before
               ++ (p ++ GetSubstitution m (lines_prefix before ++ p)
                          (q ++ lines_suffix after)
                          (token_key ++ ToString accessToken) ++ q)
               :: after).
Proof.
  intros Hb Hl. unfold updatedContent, replace_regex.
  rewrite (regex_exec_lines token_key before line after p m q token_key_no_LF Hb Hl).
  rewrite unlines_decompose. by rewrite <- !app_assoc.
Qed.

(** With a token free of dollar signs the matched text becomes the key
    followed by the token, and nothing else changes. *)
Lemma updatedContent_lines_plain before line after accessToken p m q :
  Forall (fun l => includes token_key l = false) before ->
  regex_exec token_key line = Some (p, m, q) ->
  dollar_free (ToString accessToken) = true ->
  updatedContent (unlines (before ++ line :: after)) accessToken
  = unlines (before ++ (p ++ token_key ++ ToString accessToken ++ q) :: after).
Proof.
  intros Hb Hl Hd. rewrite (updatedContent_lines _ _ _ _ p m q Hb Hl).
  rewrite GetSubstitution_plain; [by rewrite <- !app_assoc|].
  unfold dollar_free in *. rewrite forallb_app, Hd, andb_true_r.
  vm_compute. reflexivity.
Qed.

(** On the text of the store.  When no line holds the access-token key,
    [updateEnvFile] writes the text back as it read it and completes
    without error.  When lines hold the key, the match lies in the first of
    them: every line before it and every line after it, holding the key or
    not, is written back unchanged. *)
Lemma updateEnvFile_text_frame
    (accessToken : JsVal) (env : Env) :
  (forall content,
     includes token_key content = false ->
     let r := updateEnvFile accessToken env (Some content) in
     outcome_of r = Resolved tt
     /\ only is_write (trace_of r) = [FsWriteFile (env_path env) content]
     /\ disk_of r = Some content)
  /\ (forall before line after,
        Forall (fun l => includes token_key l = false) before ->
        includes token_key line = true ->
        exists p m q,
          regex_exec token_key line = Some (p, m, q)
          /\ line = p ++ m ++ q
          /\ (exists v, m = token_key ++ v)
          /\ let line' :=
               p ++ GetSubstitution m (lines_prefix before ++ p)
                      (q ++ lines_suffix after)
                      (token_key ++ ToString accessToken) ++ q in
             let r := updateEnvFile accessToken env
                        (Some (unlines (before ++ line :: after))) in
             outcome_of r = Resolved tt
             /\ only is_write (trace_of r)
                = [FsWriteFile (env_path env) (unlines (before ++ line' :: after))]).
Proof.
  split.
  - intros content Hno r. subst r. rewrite updateEnvFile_run.
    unfold store_text. simpl. rewrite (updatedContent_no_match _ _ Hno).
    by destruct (write_error env).
  - intros before line after Hb Hl.
    destruct (regex_exec_includes _ _ Hl) as (p & m & q & He).
    exists p, m, q. split; [exact He|].
    destruct (regex_exec_sound _ _ _ _ _ He) as (Hline & v & Hm & _).
    split; [exact Hline|]. split; [by exists v|].
    intros line' r. subst r line'. rewrite updateEnvFile_run.
    unfold store_text. simpl.
    rewrite (updatedContent_lines before line after accessToken p m q Hb He).
    by destruct (write_error env).
Qed.

(** C7 (defect of the code). The replacement text handed to [replace] is
    built from the token, so the dollar patterns of [replace] are expanded
    in it.  In the store below, the token [tok$'] is not written as it is:
    the text after the match is copied into the token line, so the store
    gains a line; with [a$&b] the old line is copied into the new one, and
    with [$`] the lines before the match are. *)
Theorem updateEnvFile_expands_dollar_patterns :
  let env := world network_down network_down None None in
  let store :=
    Some (unlines [lit "ZERODHA_API_KEY=k";
                   lit "ZERODHA_ACCESS_TOKEN=old";
                   lit "REQUEST_TIMEOUT=30000"]) in
  disk_of (updateEnvFile (JStr (lit "tok$'")) env store)
    = Some (unlines [lit "ZERODHA_API_KEY=k";
                     lit "ZERODHA_ACCESS_TOKEN=tok";
                     lit "REQUEST_TIMEOUT=30000";
                     lit "REQUEST_TIMEOUT=30000"])
  /\ disk_of (updateEnvFile (JStr (lit "a$&b")) env store)
     = Some (unlines [lit "ZERODHA_API_KEY=k";
                      lit "ZERODHA_ACCESS_TOKEN=aZERODHA_ACCESS_TOKEN=oldb";
                      lit "REQUEST_TIMEOUT=30000"])
  /\ disk_of (updateEnvFile (JStr (lit "$`")) env store)
     = Some (unlines [lit "ZERODHA_API_KEY=k";
                      lit "ZERODHA_ACCESS_TOKEN=ZERODHA_API_KEY=k";
                      [];
                      lit "REQUEST_TIMEOUT=30000"])
  /\ disk_of (updateEnvFile (JStr (lit "tok")) env store)
     = Some (unlines [lit "ZERODHA_API_KEY=k";
                      lit "ZERODHA_ACCESS_TOKEN=tok";
                      lit "REQUEST_TIMEOUT=30000"]).
Proof. vm_compute. repeat split. Qed.

(** ** The client built at startup *)

Lemma startup_config_baseUrl penv k s accessToken :
  startup_config penv k s accessToken !! "baseUrl"
  = Some (env_var penv "ZERODHA_BASE_URL").
Proof.
  unfold startup_config.
  rewrite !lookup_insert_ne by done. apply lookup_insert_eq.
Qed.

Lemma startup_config_timeout penv k s accessToken :
  startup_config penv k s accessToken !! "timeout"
  = Some (match penv !! "REQUEST_TIMEOUT" with
          | Some v => if truthy_str v then parseInt v else JUndefined
          | None => JUndefined
          end).
Proof.
  unfold startup_config.
  rewrite !lookup_insert_ne by done. apply lookup_insert_eq.
Qed.

(** The defaults of the constructor do apply to a configuration object
    that lacks the two properties. *)
Lemma new_ZerodhaClient_defaults (cfg : gmap string JsVal) :
  cfg !! "baseUrl" = None -> cfg !! "timeout" = None ->
  baseURL (client (new_ZerodhaClient cfg)) = JStr (lit "https://api.kite.trade")
  /\ timeout (client (new_ZerodhaClient cfg)) = JNum 30000.
Proof.
  intros Hb Ht. unfold new_ZerodhaClient, prop, spread_over. simpl.
  rewrite !lookup_union_r by done. split; reflexivity.
Qed.

(** They do not apply to a property that is present and [undefined]. *)
Lemma new_ZerodhaClient_startup penv k s accessToken :
  penv !! "ZERODHA_BASE_URL" = None -> penv !! "REQUEST_TIMEOUT" = None ->
  let c := new_ZerodhaClient (startup_config penv k s accessToken) in
  baseURL (client c) = JUndefined /\ timeout (client c) = JUndefined
  /\ config c !! "baseUrl" = Some JUndefined
  /\ config c !! "timeout" = Some JUndefined.
Proof.
  intros Hb Ht c. subst c.
  unfold new_ZerodhaClient, prop, spread_over. simpl.
  rewrite !(lookup_union_Some_l _ _ _ JUndefined).
  - done.
  - rewrite startup_config_timeout. by rewrite Ht.
  - rewrite startup_config_baseUrl. unfold env_var. by rewrite Hb.
Qed.

(** C8 (defect of the code). With [ZERODHA_BASE_URL] and
    [REQUEST_TIMEOUT] unset, the configuration object built at startup
    still carries the properties [baseUrl] and [timeout], with the value
    [undefined]; spread over the defaults of the constructor they replace
    them, so the client is created with [baseURL] and [timeout] undefined
    and not with [https://api.kite.trade] and 30000.  This holds for the
    client of every run of [initializeZerodhaClient] that builds one. *)
Theorem startup_client_loses_defaults
    (penv : gmap string jsstring) (k s : jsstring) (accessToken : JsVal) :
  penv !! "ZERODHA_BASE_URL" = None -> penv !! "REQUEST_TIMEOUT" = None ->
  (let c := new_ZerodhaClient (startup_config penv k s accessToken) in
   baseURL (client c) = JUndefined /\ timeout (client c) = JUndefined
   /\ baseURL (client c) <> JStr (lit "https://api.kite.trade")
   /\ timeout (client c) <> JNum 30000)
  /\ (forall env d c,
        outcome_of (initializeZerodhaClient penv env d) = Resolved c ->
        baseURL (client c) = JUndefined /\ timeout (client c) = JUndefined).
Proof.
  intros Hb Ht. split.
  - intros c.
    destruct (new_ZerodhaClient_startup penv k s accessToken Hb Ht) as (H1 & H2 & _).
    subst c. rewrite H1, H2. done.
  - intros env d c. unfold initializeZerodhaClient.
    destruct (penv !! "ZERODHA_API_KEY") as [k'|]; [|done].
    destruct (penv !! "ZERODHA_API_SECRET") as [s'|]; [|done].
    destruct (truthy_str k' && truthy_str s'); [|done].
    unfold try_catch, bind, console_log, emit, outcome_of. simpl.
    destruct (getValidAccessToken k' s' (penv !! "ZERODHA_ACCESS_TOKEN") env d)
      as [[[v|e|] d1] t1]; simpl; [|done|done].
    intros [= <-].
    destruct (new_ZerodhaClient_startup penv k' s' v Hb Ht) as (H1 & H2 & _).
    done.
Qed.

(** The environment of the README: only the key and the secret are set. *)
Lemma startup_client_loses_defaults_witness :
  let penv : gmap string jsstring :=
    <["ZERODHA_API_KEY" := lit "abc"]> (<["ZERODHA_API_SECRET" := lit "xyz"]> ∅) in
  let c := new_ZerodhaClient
             (startup_config penv (lit "abc") (lit "xyz") (JStr (lit "validTok"))) in
  baseURL (client c) = JUndefined /\ timeout (client c) = JUndefined.
Proof.
  intros penv c.
  destruct (startup_client_loses_defaults penv (lit "abc") (lit "xyz")
              (JStr (lit "validTok"))) as [(H1 & H2 & _) _].
  - vm_compute. reflexivity.
  - vm_compute. reflexivity.
  - split; [exact H1 | exact H2].
Defined.

(** ** The store as bytes *)



























(** * Further properties of the credential lifecycle *)

Transparent generateAccessToken.

(** ** Failures of the exchange request *)

(** X1. How [generateAccessToken] fails.  No axios error leaves it: a
    rejected POST becomes an [Error] whose message is [Failed to generate
    access token: ] followed by the message of the response when it is
    truthy and by the message of the error otherwise.  An answer whose
    status is not [success] becomes [Authentication failed: ] followed by
    the [message] of the answer, and an answer whose status is [success]
    gives back its [data]. *)
Theorem generateAccessToken_failures
    (this : ZerodhaAuth) (requestToken : jsstring) (env : Env) (d : Disk) :
  let url := baseUrl this ++ lit "/session/token" in
  let formData := exchange_formData this requestToken in
  let o := outcome_of (generateAccessToken this requestToken env d) in
  (forall e, o = Rejected e -> isAxiosError e = false)
  /\ (forall rm m,
        net_post env url formData = AxiosReject (ErrAxios rm m) ->
        o = Rejected (ErrError (lit "Failed to generate access token: "
                                  ++ (if truthy rm then ToString rm else m))))
  /\ (forall fields,
        net_post env url formData = AxiosResolve (JObj fields) ->
        lookup_field (lit "status") fields <> JStr (lit "success") ->
        o = Rejected (ErrError (lit "Authentication failed: "
                                  ++ ToString (lookup_field (lit "message") fields))))
  /\ (forall fields,
        net_post env url formData = AxiosResolve (JObj fields) ->
        lookup_field (lit "status") fields = JStr (lit "success") ->
        o = Resolved (lookup_field (lit "data") fields)).
Proof.
  intros url formData o. subst o url formData.
  unfold generateAccessToken, try_catch, bind, axios_post, outcome_of.
  destruct (net_post env _ _) as [resp|e] eqn:Hpost.
  - assert (Hobj : forall fields, AxiosResolve resp = AxiosResolve (JObj fields) ->
                                  resp = JObj fields) by (by intros ? [=]).
    split; [|split; [|split]].
    + intros e.
      destruct (get_prop resp (lit "status")) as [e0|status] eqn:Hs; simpl.
      * destruct resp; simpl in Hs; try discriminate;
          injection Hs as <-; simpl; by intros [= <-].
      * destruct (strict_eq_str status (lit "success")).
        -- destruct (get_prop resp (lit "data")) as [e0|v] eqn:Hd; simpl; [|done].
           destruct resp; simpl in Hd; try discriminate;
             injection Hd as <-; simpl; by intros [= <-].
        -- destruct (get_prop resp (lit "message")) as [e0|v] eqn:Hm; simpl.
           ++ destruct resp; simpl in Hm; try discriminate;
                injection Hm as <-; simpl; by intros [= <-].
           ++ by intros [= <-].
    + intros rm m [=].
    + intros fields ->%Hobj Hne. simpl.
      destruct (strict_eq_str _ _) eqn:Hs; [by apply strict_eq_str_true in Hs|].
      reflexivity.
    + intros fields ->%Hobj Heq. simpl. rewrite Heq. simpl.
      assert (str_eqb (lit "success") (lit "success") = true) as ->
        by (by apply str_eqb_eq).
      reflexivity.
  - split; [|split; [|split]]; try (by intros fields [=]).
    + intros e0. destruct e; simpl; by intros [= <-].
    + intros rm m [= ->]. simpl. by destruct (truthy rm).
Qed.

(** A broker that refuses the request token with a message, and one that
    cannot be reached. *)
Lemma generateAccessToken_failures_witness :
  let this := new_ZerodhaAuth (lit "abc") (lit "xyz") None in
  let refusal :=
    JObj [(lit "status", JStr (lit "error"));
          (lit "message", JStr (lit "Token is invalid or has expired."))] in
  outcome_of (generateAccessToken this (lit "tok123")
                (world network_down (AxiosResolve refusal) None None) None)
  = Rejected (ErrError (lit "Authentication failed: Token is invalid or has expired."))
  /\ outcome_of (generateAccessToken this (lit "tok123")
                   (world network_down network_down None None) None)
     = Rejected (ErrError (lit "Failed to generate access token: connect ECONNREFUSED")).
Proof.
  intros this refusal. split.
  - destruct (generateAccessToken_failures this (lit "tok123")
                (world network_down (AxiosResolve refusal) None None) None)
      as (_ & _ & Hrefused & _).
    apply (Hrefused [(lit "status", JStr (lit "error"));
                     (lit "message", JStr (lit "Token is invalid or has expired."))]).
    + reflexivity.
    + vm_compute. discriminate.
  - destruct (generateAccessToken_failures this (lit "tok123")
                (world network_down network_down None None) None)
      as (_ & Hdown & _).
    apply (Hdown JUndefined (lit "connect ECONNREFUSED")). reflexivity.
Defined.

Opaque generateAccessToken.

(** ** The resolver: failures, settling, order of events *)

(** Either an exchange is needed, or the stored token passes the probe. *)
Lemma resolver_cases k existingToken env d :
  exchange_needed k existingToken env d
  \/ exists token,
       existingToken = Some token /\ token <> [] /\ token <> placeholder
       /\ probe_result k token env d = Resolved true.
Proof.
  destruct existingToken as [token|]; [|by left].
  destruct (decide (token = [])) as [->|Hne]; [left; by left|].
  destruct (decide (token = placeholder)) as [->|Hnp]; [left; right; by left|].
  destruct (validateAccessToken_run k token None env d) as (b & Hrun & _).
  destruct b.
  - right. exists token. repeat split; try done. unfold probe_result. by rewrite Hrun.
  - left. right. right. unfold probe_result. by rewrite Hrun.
Qed.

(** The run of the resolver when an exchange is needed, with its prefix
    spelled out. *)
Lemma getValidAccessToken_exchange_trace k s existingToken env d :
  exchange_needed k existingToken env d ->
  getValidAccessToken k s existingToken env d
  = (outcome_of (authenticate (new_ZerodhaAuth k s None) env d),
     disk_of (authenticate (new_ZerodhaAuth k s None) env d),
     resolver_prefix k existingToken
       ++ start_line :: trace_of (authenticate (new_ZerodhaAuth k s None) env d)).
Proof.
  intros Hneed. unfold getValidAccessToken, resolver_prefix.
  set (auth := new_ZerodhaAuth k s None).
  assert (Hstart : forall d0,
    bind (console_log ([0x1F504] ++ lit " Access token required. Starting authentication flow..."))
         (fun _ => authenticate auth) env d0
    = (outcome_of (authenticate auth env d0), disk_of (authenticate auth env d0),
       start_line :: trace_of (authenticate auth env d0))).
  { intros d0. unfold bind, console_log, emit. simpl.
    by destruct (authenticate auth env d0) as [[o d1] t1]. }
  destruct existingToken as [token|]; [|by rewrite Hstart].
  destruct (truthy_str token && negb (str_eqb token placeholder)) eqn:Hcond;
    [|by rewrite Hstart].
  apply andb_true_iff in Hcond as [Ht Hp].
  apply negb_true_iff, str_eqb_neq in Hp.
  destruct Hneed as [-> | [-> | Hprobe]]; [done | done |].
  unfold probe_result in Hprobe.
  destruct (validateAccessToken_run k token None env d) as (b & Hrun & _).
  rewrite Hrun in Hprobe. injection Hprobe as ->.
  unfold bind at 1. unfold console_log at 1, emit. simpl.
  unfold bind at 1. rewrite Hrun.
  unfold bind at 1. unfold console_log at 1, emit. simpl.
  by rewrite Hstart.
Qed.

Lemma resolver_prefix_quiet k existingToken :
  only is_post (resolver_prefix k existingToken) = []
  /\ only is_question (resolver_prefix k existingToken) = []
  /\ only is_read (resolver_prefix k existingToken) = []
  /\ only is_write (resolver_prefix k existingToken) = [].
Proof.
  unfold resolver_prefix. destruct existingToken as [token|]; [|done].
  by destruct (truthy_str token && negb (str_eqb token placeholder)).
Qed.

(** X2. Every failure of the resolver is an [Error] whose message is
    [Authentication failed: ] followed by the message of what made the
    interactive exchange fail; the resolver asked the operator exactly
    once (no retry), and the store was neither read nor written. *)
Theorem getValidAccessToken_failure_is_wrapped
    (k s : jsstring) (existingToken : option jsstring) (env : Env) (d : Disk)
    (e : JsError) :
  let r := getValidAccessToken k s existingToken env d in
  outcome_of r = Rejected e ->
  (exists cause,
      outcome_of (interactiveAuth (new_ZerodhaAuth k s None) env d) = Rejected cause
      /\ e = ErrError (lit "Authentication failed: " ++ error_message cause))
  /\ disk_of r = d
  /\ only is_read (trace_of r) = []
  /\ only is_write (trace_of r) = []
  /\ length (only is_question (trace_of r)) = 1%nat.
Proof.
  intros r. subst r.
  destruct (resolver_cases k existingToken env d)
    as [Hneed | (token & -> & Hne & Hnp & Hprobe)].
  2: { by rewrite (getValidAccessToken_valid k s token env d Hne Hnp Hprobe). }
  rewrite (getValidAccessToken_exchange_trace k s existingToken env d Hneed).
  rewrite authenticate_run.
  destruct (resolver_prefix_quiet k existingToken) as (Hpp & Hpq & Hpr & Hpw).
  set (auth := new_ZerodhaAuth k s None).
  destruct (interactiveAuth_run auth env d) as (o & tr & Hauth & Hcases).
  rewrite Hauth. clear Hauth.
  destruct o as [v|cause|]; run_red; [done| |done].
  intros [= <-].
  assert (Htr : only is_read tr = [] /\ only is_write tr = []
                /\ only is_question tr = []).
  { destruct (stdin_line env) as [answer|]; [|by destruct Hcases as [_ ->]].
    destruct (blank answer); [by destruct Hcases as [_ ->]|].
    destruct Hcases as (tail & -> & _ & _ & Htq & Htr & Htw & _). simpl. auto. }
  destruct Htr as (Hr & Hw & Hq).
  split; [by exists cause|]. split; [done|].
  split; [by only_simpl|]. split; [by only_simpl|]. by only_simpl.
Qed.

Lemma getValidAccessToken_failure_is_wrapped_witness :
  let env := world network_down network_down (Some (lit "   ")) None in
  let r := getValidAccessToken (lit "abc") (lit "xyz") None env (Some (lit "A=1")) in
  outcome_of r
  = Rejected (ErrError (lit "Authentication failed: Request token is required"))
  /\ disk_of r = Some (lit "A=1").
Proof.
  intros env r.
  assert (Hout : outcome_of r
    = Rejected (ErrError (lit "Authentication failed: Request token is required"))).
  { vm_compute. reflexivity. }
  split; [exact Hout|].
  destruct (getValidAccessToken_failure_is_wrapped (lit "abc") (lit "xyz") None env
              (Some (lit "A=1")) _ Hout) as (_ & Hd & _).
  exact Hd.
Defined.

(** X3. The resolver always settles, except when it needs an exchange and
    the input stream closes before the operator answers: that is the only
    way its promise stays pending. *)
Theorem getValidAccessToken_pending_iff
    (k s : jsstring) (existingToken : option jsstring) (env : Env) (d : Disk) :
  outcome_of (getValidAccessToken k s existingToken env d) = Pending
  <-> exchange_needed k existingToken env d /\ stdin_line env = None.
Proof.
  split.
  - destruct (resolver_cases k existingToken env d)
      as [Hneed | (token & -> & Hne & Hnp & Hprobe)].
    2: { by rewrite (getValidAccessToken_valid k s token env d Hne Hnp Hprobe). }
    rewrite (getValidAccessToken_exchange_trace k s existingToken env d Hneed).
    rewrite authenticate_run.
    destruct (interactiveAuth_run (new_ZerodhaAuth k s None) env d)
      as (o & tr & Hauth & Hcases).
    rewrite Hauth. clear Hauth.
    destruct (stdin_line env) as [answer|]; [|done].
    destruct (blank answer).
    + destruct Hcases as [-> _]. by run_red.
    + destruct Hcases as (tail & _ & _ & _ & _ & _ & _ & Hnp & _).
      destruct o; run_red; done.
  - intros [Hneed Hin].
    rewrite (getValidAccessToken_exchange_trace k s existingToken env d Hneed).
    rewrite authenticate_run.
    destruct (interactiveAuth_run (new_ZerodhaAuth k s None) env d)
      as (o & tr & Hauth & Hcases).
    rewrite Hauth, Hin in *. by destruct Hcases as [-> _].
Qed.

(** ** Persistence is a side channel *)

Transparent interactiveAuth generateAccessToken.

Ltac run_cases :=
  cbv beta iota zeta
      delta [try_catch bind axios_post axios_get rl_question console_log emit
             lift ret throw net_get net_post stdin_line with_write_error];
  repeat (match goal with
          | |- context [match ?x with _ => _ end] =>
              lazymatch x with
              | context [match _ with _ => _ end] => fail
              | _ => destruct x
              end
          end;
          cbv beta iota zeta
              delta [try_catch bind axios_post axios_get rl_question console_log
                     emit lift ret throw net_get net_post stdin_line
                     with_write_error]);
  try reflexivity.

Lemma generateAccessToken_write_error this requestToken env failure d :
  generateAccessToken this requestToken (with_write_error env failure) d
  = generateAccessToken this requestToken env d.
Proof. unfold generateAccessToken. run_cases. Qed.

Lemma interactiveAuth_write_error this env failure d :
  interactiveAuth this (with_write_error env failure) d = interactiveAuth this env d.
Proof.
  unfold interactiveAuth.
  cbv beta iota zeta delta [try_catch bind rl_question console_log emit].
  cbn [stdin_line with_write_error].
  destruct (stdin_line env) as [a|]; [|reflexivity].
  cbv beta iota zeta.
  destruct (negb (truthy_str a) || str_eqb (trim a) []); [reflexivity|].
  cbv beta iota zeta.
  rewrite generateAccessToken_write_error.
  destruct (generateAccessToken this (trim a) env d) as [[[v|e|] d1] t1];
    try reflexivity.
  cbv beta iota zeta.
  by destruct (get_prop v (lit "access_token")).
Qed.

Opaque interactiveAuth generateAccessToken.

Lemma validateAccessToken_write_error k token url env failure d :
  validateAccessToken k token url (with_write_error env failure) d
  = validateAccessToken k token url env d.
Proof.
  unfold validateAccessToken. run_cases.
Qed.

Lemma exchange_needed_write_error k existingToken env failure d :
  exchange_needed k existingToken env d ->
  exchange_needed k existingToken (with_write_error env failure) d.
Proof.
  unfold exchange_needed, probe_result. destruct existingToken as [token|]; [|done].
  by rewrite validateAccessToken_write_error.
Qed.

(** X4. A failing write of the store never changes what the resolver
    returns: in the same world with the write made to fail, the resolver
    ends the same way and sends the same requests; the store is left as it
    was, and a token that was minted is still returned, after a warning
    that carries the error and a line telling the operator which
    [ZERODHA_ACCESS_TOKEN=...] to set by hand. *)
Theorem persistence_failure_is_not_fatal
    (k s : jsstring) (existingToken : option jsstring) (env : Env) (d : Disk)
    (failure : JsError) :
  let r := getValidAccessToken k s existingToken env d in
  let r' := getValidAccessToken k s existingToken
              (with_write_error env (Some failure)) d in
  outcome_of r' = outcome_of r
  /\ only is_http (trace_of r') = only is_http (trace_of r)
  /\ disk_of r' = d
  /\ (forall v,
        outcome_of r' = Resolved v -> exchange_needed k existingToken env d ->
        exists before,
          trace_of r'
          = before
              ++ [FsWriteFile (env_path env) (updatedContent (store_text d) v);
                  ConsoleWarn ([0x26A0; 0xFE0F] ++ lit "  Could not update .env file:")
                              failure;
                  ConsoleLog ([0x1F4DD]
                                ++ lit " Please manually update your .env file with: ZERODHA_ACCESS_TOKEN="
                                ++ ToString v)]).
Proof.
  intros r r'. subst r r'.
  set (env' := with_write_error env (Some failure)).
  destruct (resolver_cases k existingToken env d)
    as [Hneed | (token & -> & Hne & Hnp & Hprobe)].
  2: { assert (Hprobe' : probe_result k token env' d = Resolved true).
       { unfold probe_result, env'. by rewrite validateAccessToken_write_error. }
       rewrite (getValidAccessToken_valid k s token env d Hne Hnp Hprobe).
       rewrite (getValidAccessToken_valid k s token env' d Hne Hnp Hprobe').
       repeat split. intros v _ [H | [H | H]]; try done.
       rewrite Hprobe in H. discriminate. }
  pose proof (exchange_needed_write_error k existingToken env (Some failure) d Hneed)
    as Hneed'.
  rewrite (getValidAccessToken_exchange_trace k s existingToken env d Hneed).
  rewrite (getValidAccessToken_exchange_trace k s existingToken env' d Hneed').
  rewrite !authenticate_run. subst env'.
  rewrite !interactiveAuth_write_error.
  set (auth := new_ZerodhaAuth k s None).
  destruct (interactiveAuth_run auth env d) as (o & tr & Hauth & Hcases).
  rewrite Hauth. clear Hauth.
  destruct o as [v|cause|]; run_red;
    [|by repeat split; try intros ? [=]|by repeat split; try intros ? [=]].
  rewrite !updateEnvFile_run.
  change (write_error (with_write_error env (Some failure))) with (Some failure).
  change (env_path (with_write_error env (Some failure))) with (env_path env).
  cbv zeta.
  split; [done|]. split.
  { destruct (write_error env); run_red; by only_simpl. }
  split; [done|].
  intros v' [= <-] _. run_red.
  eexists (resolver_prefix k existingToken ++ start_line
             :: (auth_banner auth ++ RlQuestion request_prompt :: tr)
             ++ [FsReadFile (env_path env)]).
  rewrite <- !app_assoc. simpl. rewrite <- !app_assoc. reflexivity.
Qed.

(** A read-only working directory: the minted token is still returned. *)
Lemma persistence_failure_is_not_fatal_witness :
  let env := world network_down (AxiosResolve (success_envelope (lit "fresh")))
                   (Some (lit "tok123")) None in
  let failure := ErrError (lit "EACCES: permission denied, open '/srv/kitelink/.env'") in
  let r' := getValidAccessToken (lit "abc") (lit "xyz") None
              (with_write_error env (Some failure)) (Some (lit "A=1")) in
  outcome_of r' = Resolved (JStr (lit "fresh")) /\ disk_of r' = Some (lit "A=1").
Proof.
  intros env failure r'.
  destruct (persistence_failure_is_not_fatal (lit "abc") (lit "xyz") None env
              (Some (lit "A=1")) failure) as (Ho & _ & Hd & _).
  split; [|exact Hd].
  etransitivity; [exact Ho|]. vm_compute. reflexivity.
Defined.

(** X5. The order of an exchange: when one is needed, the run splits at
    the question to the operator.  Before it the login URL has been shown,
    no POST has been sent and the store has not been touched; after it no
    GET is sent, so the probe, when there is one, always precedes the
    question and the exchange request always follows the answer. *)
Theorem exchange_asks_before_it_posts
    (k s : jsstring) (existingToken : option jsstring) (env : Env) (d : Disk) :
  exchange_needed k existingToken env d ->
  exists before after,
    trace_of (getValidAccessToken k s existingToken env d)
    = before ++ RlQuestion request_prompt :: after
    /\ In (ConsoleLog (lit "   "
                         ++ lit "https://kite.zerodha.com/connect/login?api_key="
                         ++ k)) before
    /\ only is_post before = [] /\ only is_read before = []
    /\ only is_write before = [] /\ only is_question before = []
    /\ only is_get after = [].
Proof.
  intros Hneed.
  rewrite (getValidAccessToken_exchange_trace k s existingToken env d Hneed).
  destruct (resolver_prefix_quiet k existingToken) as (Hpp & Hpq & Hpr & Hpw).
  set (auth := new_ZerodhaAuth k s None).
  destruct (authenticate_trace auth env d) as (rest & Htr & Hg).
  rewrite Htr in Hg. rewrite only_app in Hg. simpl in Hg.
  unfold trace_of in *. simpl. rewrite Htr.
  exists (resolver_prefix k existingToken ++ start_line :: auth_banner auth), rest.
  split; [by rewrite <- app_assoc|].
  split.
  { apply in_or_app. right. right. unfold auth_banner, getLoginUrl. simpl. tauto. }
  repeat split; by only_simpl.
Qed.

Lemma exchange_asks_before_it_posts_witness :
  let env := world network_down (AxiosResolve (success_envelope (lit "fresh")))
                   (Some (lit "tok123")) None in
  exists before after,
    trace_of (getValidAccessToken (lit "abc") (lit "xyz") (Some (lit "stale")) env None)
    = before ++ RlQuestion request_prompt :: after
    /\ only is_post before = [] /\ only is_get after = [].
Proof.
  intros env.
  destruct (exchange_asks_before_it_posts (lit "abc") (lit "xyz") (Some (lit "stale"))
              env None) as (before & after & Ht & _ & Hp & _ & _ & _ & Hg).
  - right. right. vm_compute. reflexivity.
  - by exists before, after.
Defined.

(** ** The store after an update *)

Lemma startsWith_take key s :
  startsWith key s = startsWith key (take (length key) s).
Proof.
  revert s. induction key as [|a key IH]; intros [|b s]; simpl; try done.
  by rewrite IH.
Qed.

Lemma regex_exec_after key s b m a :
  regex_exec key s = Some (b, m, a) ->
  a = [] \/ exists c r, a = c :: r /\ isLineTerminator c = true.
Proof.
  revert b m a. induction s as [|c s IH]; intros b m a; rewrite regex_exec_eq.
  - destruct (startsWith key []); [|done]. intros [= <- <- <-]. left.
    by rewrite drop_nil.
  - destruct (startsWith key (c :: s)) eqn:Hs.
    + intros [= <- <- <-]. apply startsWith_inv in Hs.
      rewrite length_app, <- drop_drop.
      generalize (drop (length key) (c :: s)). clear. intros x.
      induction x as [|y x IH]; simpl; [by left|].
      destruct (isLineTerminator y) eqn:Hy; simpl; [|exact IH].
      right. by exists y, x.
    + destruct (regex_exec key s) as [[[p' m'] q']|] eqn:He; [|done].
      intros [= <- <- <-]. by apply (IH _ _ _ eq_refl).
Qed.

(** The place of the first match depends only on the text up to the key. *)
Lemma regex_exec_rematch key s b m a rest :
  regex_exec key s = Some (b, m, a) ->
  regex_exec key (b ++ key ++ rest)
  = Some (b, key ++ dot_star rest, drop (length (dot_star rest)) rest).
Proof.
  revert b m a. induction s as [|c s IH]; intros b m a; rewrite regex_exec_eq.
  - destruct (startsWith key []) eqn:Hs; [|done]. intros [= <- <- <-].
    simpl. rewrite regex_exec_eq, startsWith_app. cbv zeta.
    rewrite drop_app_length. f_equal. f_equal.
    by rewrite length_app, <- drop_drop, drop_app_length.
  - destruct (startsWith key (c :: s)) eqn:Hs.
    + intros [= <- <- <-].
      simpl. rewrite regex_exec_eq, startsWith_app. cbv zeta.
      rewrite drop_app_length. f_equal. f_equal.
      by rewrite length_app, <- drop_drop, drop_app_length.
    + destruct (regex_exec key s) as [[[p' m'] q']|] eqn:He; [|done].
      intros [= <- <- <-].
      destruct (regex_exec_sound _ _ _ _ _ He) as (Hs' & v & -> & _).
      rewrite (regex_exec_eq key ((c :: p') ++ key ++ rest)).
      assert (startsWith key ((c :: p') ++ key ++ rest) = false) as ->.
      { assert (E1 : (c :: p') ++ key ++ rest = ((c :: p') ++ key) ++ rest)
          by (by rewrite <- app_assoc).
        assert (E2 : c :: s = ((c :: p') ++ key) ++ (v ++ q')).
        { rewrite Hs'. simpl. by rewrite <- !app_assoc. }
        assert (Hlen : (length key <= length ((c :: p') ++ key))%nat)
          by (rewrite length_app; lia).
        rewrite startsWith_take, E1, take_app_le by exact Hlen.
        rewrite startsWith_take, E2, take_app_le in Hs by exact Hlen.
        exact Hs. }
      simpl. by rewrite (IH _ _ _ eq_refl).
Qed.

Lemma dot_star_one_line t a :
  one_line t = true ->
  a = [] \/ (exists c r, a = c :: r /\ isLineTerminator c = true) ->
  dot_star (t ++ a) = t /\ drop (length (dot_star (t ++ a))) (t ++ a) = a.
Proof.
  intros Ht Ha.
  assert (H : dot_star (t ++ a) = t).
  { induction t as [|c t IH]; simpl in *.
    - destruct Ha as [->|(c & r & -> & Hc)]; [done|]. simpl. by rewrite Hc.
    - apply andb_true_iff in Ht as [Hc Ht]. apply negb_true_iff in Hc.
      rewrite Hc. f_equal. by apply IH. }
  split; [exact H|]. rewrite H. apply drop_app_length.
Qed.

Lemma token_key_dollar_free : dollar_free token_key = true.
Proof. vm_compute. reflexivity. Qed.

Lemma replacement_plain m b a t :
  dollar_free t = true ->
  GetSubstitution m b a (token_key ++ t) = token_key ++ t.
Proof.
  intros Ht. apply GetSubstitution_plain. unfold dollar_free.
  rewrite forallb_app. apply andb_true_iff.
  split; [apply token_key_dollar_free | exact Ht].
Qed.

(** The updated store, read again. *)
Lemma updatedContent_rematch c accessToken b m a :
  regex_exec token_key c = Some (b, m, a) ->
  dollar_free (ToString accessToken) = true ->
  one_line (ToString accessToken) = true ->
  updatedContent c accessToken = b ++ token_key ++ ToString accessToken ++ a
  /\ regex_exec token_key (updatedContent c accessToken)
     = Some (b, token_key ++ ToString accessToken, a).
Proof.
  intros He Hd Hl.
  assert (Hu : updatedContent c accessToken
               = b ++ token_key ++ ToString accessToken ++ a).
  { unfold updatedContent, replace_regex. rewrite He.
    rewrite replacement_plain by done. by rewrite <- app_assoc. }
  split; [exact Hu|]. rewrite Hu.
  rewrite (regex_exec_rematch _ _ _ _ _ (ToString accessToken ++ a) He).
  destruct (dot_star_one_line (ToString accessToken) a Hl
              (regex_exec_after _ _ _ _ _ He)) as [-> H2].
  by rewrite drop_app_length.
Qed.

(** X6. Reading back what was persisted.  In a store that holds the
    access-token key, after an update with a token that has no dollar sign
    and no line break, the first entry of the key holds exactly the new
    token, at the place of the old entry, and the text around it is the
    text that was there. *)
Theorem updateEnvFile_token_can_be_read_back
    (content : jsstring) (accessToken : JsVal) (env : Env) :
  includes token_key content = true ->
  dollar_free (ToString accessToken) = true ->
  one_line (ToString accessToken) = true ->
  write_error env = None ->
  exists before old after,
    content = before ++ old ++ after
    /\ regex_exec token_key content = Some (before, old, after)
    /\ disk_of (updateEnvFile accessToken env (Some content))
       = Some (before ++ token_key ++ ToString accessToken ++ after)
    /\ regex_exec token_key (before ++ token_key ++ ToString accessToken ++ after)
       = Some (before, token_key ++ ToString accessToken, after).
Proof.
  intros Hin Hd Hl Hw.
  destruct (regex_exec_includes _ _ Hin) as (b & m & a & He).
  destruct (updatedContent_rematch content accessToken b m a He Hd Hl) as [Hu Hr].
  exists b, m, a. split; [by apply regex_exec_sound in He as [? _]|].
  split; [exact He|]. rewrite updateEnvFile_run, Hw. unfold store_text. simpl.
  rewrite Hu in *. done.
Qed.

Lemma updateEnvFile_token_can_be_read_back_witness :
  let env := world network_down network_down None None in
  let content := unlines [lit "ZERODHA_API_KEY=k"; lit "ZERODHA_ACCESS_TOKEN=old"; lit "PORT=1"] in
  regex_exec token_key
    (default [] (disk_of (updateEnvFile (JStr (lit "fresh")) env (Some content))))
  = Some (lit "ZERODHA_API_KEY=k" ++ [LF], lit "ZERODHA_ACCESS_TOKEN=fresh",
          LF :: lit "PORT=1").
Proof.
  intros env content.
  destruct (updateEnvFile_token_can_be_read_back content (JStr (lit "fresh")) env)
    as (b & m & a & _ & He & Hdisk & Hr).
  - vm_compute. reflexivity.
  - vm_compute. reflexivity.
  - vm_compute. reflexivity.
  - reflexivity.
  - rewrite Hdisk. simpl.
    assert (Hc : regex_exec token_key content
                 = Some (lit "ZERODHA_API_KEY=k" ++ [LF],
                         lit "ZERODHA_ACCESS_TOKEN=old", LF :: lit "PORT=1")).
    { vm_compute. reflexivity. }
    rewrite Hc in He. injection He as <- <- <-.
    etransitivity; [exact Hr|]. vm_compute. reflexivity.
Defined.

(** X7. The last write wins, and writing twice is writing once: an update
    with a token that has no dollar sign and no line break, followed by an
    update with a token that has no dollar sign, leaves the store as the
    second update alone would. *)
Theorem updatedContent_last_write_wins
    (content : jsstring) (first second : JsVal) :
  dollar_free (ToString first) = true -> one_line (ToString first) = true ->
  dollar_free (ToString second) = true ->
  updatedContent (updatedContent content first) second
  = updatedContent content second
  /\ updatedContent (updatedContent content first) first
     = updatedContent content first.
Proof.
  intros Hd1 Hl1 Hd2.
  destruct (regex_exec token_key content) as [[[b m] a]|] eqn:He.
  - destruct (updatedContent_rematch content first b m a He Hd1 Hl1) as [Hu Hr].
    split.
    + unfold updatedContent at 1 3, replace_regex. rewrite Hr, He.
      by rewrite !replacement_plain.
    + unfold updatedContent at 1, replace_regex. rewrite Hr.
      rewrite replacement_plain by done. rewrite Hu. by rewrite <- app_assoc.
  - assert (Hno : forall t, updatedContent content t = content).
    { intros t. unfold updatedContent, replace_regex. by rewrite He. }
    by rewrite !Hno.
Qed.

Lemma updatedContent_last_write_wins_witness :
  let content := unlines [lit "ZERODHA_ACCESS_TOKEN=old"; lit "PORT=1"] in
  updatedContent (updatedContent content (JStr (lit "one"))) (JStr (lit "two"))
  = unlines [lit "ZERODHA_ACCESS_TOKEN=two"; lit "PORT=1"].
Proof.
  intros content.
  destruct (updatedContent_last_write_wins content (JStr (lit "one")) (JStr (lit "two")))
    as [H _].
  - vm_compute. reflexivity.
  - vm_compute. reflexivity.
  - vm_compute. reflexivity.
  - rewrite H. vm_compute. reflexivity.
Defined.

(** X8. A store that cannot be read is created from the template: with a
    token that has no dollar sign, the file written holds the three
    placeholder settings, the two optional settings and the new token on
    the access-token line, in the order of the template. *)
Theorem updateEnvFile_creates_store (accessToken : JsVal) (env : Env) :
  write_error env = None ->
  dollar_free (ToString accessToken) = true ->
  let r := updateEnvFile accessToken env None in
  let created :=
    unlines [lit "# Zerodha API Configuration";
             lit "ZERODHA_API_KEY=your_api_key";
             lit "ZERODHA_API_SECRET=your_api_secret";
             lit "ZERODHA_ACCESS_TOKEN=" ++ ToString accessToken;
             [];
             lit "# Optional: Request timeout in milliseconds";
             lit "REQUEST_TIMEOUT=30000";
             [];
             lit "# Optional: Base URL for Zerodha API";
             lit "ZERODHA_BASE_URL=https://api.kite.trade";
             []] in
  outcome_of r = Resolved tt
  /\ disk_of r = Some created
  /\ only is_write (trace_of r) = [FsWriteFile (env_path env) created].
Proof.
  intros Hw Hd r created. subst r.
  rewrite updateEnvFile_run, Hw. unfold store_text. simpl.
  assert (Ht : env_template
    = unlines ([lit "# Zerodha API Configuration";
                lit "ZERODHA_API_KEY=your_api_key";
                lit "ZERODHA_API_SECRET=your_api_secret"]
               ++ lit "ZERODHA_ACCESS_TOKEN=your_access_token"
               :: [[]; lit "# Optional: Request timeout in milliseconds";
                   lit "REQUEST_TIMEOUT=30000"; [];
                   lit "# Optional: Base URL for Zerodha API";
                   lit "ZERODHA_BASE_URL=https://api.kite.trade"; []])).
  { vm_compute. reflexivity. }
  assert (Hu : updatedContent env_template accessToken = created).
  { rewrite Ht.
    rewrite (updatedContent_lines_plain _ _ _ accessToken []
               (lit "ZERODHA_ACCESS_TOKEN=your_access_token") []).
    - subst created. simpl. by rewrite app_nil_r.
    - repeat constructor.
    - vm_compute. reflexivity.
    - exact Hd. }
  rewrite Hu. done.
Qed.

Lemma updateEnvFile_creates_store_witness :
  let env := world network_down network_down None None in
  exists created,
    disk_of (updateEnvFile (JStr (lit "fresh")) env None) = Some created
    /\ includes (lit "ZERODHA_ACCESS_TOKEN=fresh") created = true.
Proof.
  intros env.
  destruct (updateEnvFile_creates_store (JStr (lit "fresh")) env) as (_ & Hd & _).
  - reflexivity.
  - vm_compute. reflexivity.
  - eexists. split; [exact Hd|]. vm_compute. reflexivity.
Defined.

(** ** The checksum on the wire *)

Transparent sha256_hex.

Lemma fold_left_invariant {A B} (f : A -> B -> A) (P : A -> Prop) l a :
  P a -> (forall x y, P x -> P (f x y)) -> P (fold_left f l a).
Proof.
  intros Ha Hf. revert a Ha.
  induction l as [|y l IH]; intros a Ha; [exact Ha|].
  apply IH, Hf, Ha.
Qed.

Lemma round_length st k : length (SHA256.round st k).1 = 8%nat.
Proof. destruct st as [v w]. reflexivity. Qed.

Lemma compress_length h block :
  length h = 8%nat -> length (SHA256.compress h block) = 8%nat.
Proof.
  intros Hh. unfold SHA256.compress.
  assert (Hv : length (fold_left SHA256.round SHA256.K (h, block)).1 = 8%nat).
  { apply (fold_left_invariant SHA256.round (fun st => length st.1 = 8%nat)).
    - exact Hh.
    - intros st k _. apply round_length. }
  destruct (fold_left SHA256.round SHA256.K (h, block)) as [v w].
  cbn [fst] in Hv. rewrite length_zip_with. lia.
Qed.

Lemma compress_all_length blocks h :
  length h = 8%nat -> length (fold_left SHA256.compress blocks h) = 8%nat.
Proof.
  intros Hh.
  apply (fold_left_invariant SHA256.compress (fun x => length x = 8%nat)).
  - exact Hh.
  - intros x y Hx. by apply compress_length.
Qed.

Lemma be_bytes_bytes n x :
  length (SHA256.be_bytes n x) = n
  /\ Forall (fun b => b < 256) (SHA256.be_bytes n x).
Proof.
  induction n as [|n [IH1 IH2]]; simpl; [done|].
  split; [by rewrite IH1|]. constructor; [|done].
  change 0xFF with (N.ones 8). rewrite N.land_ones.
  apply N.mod_lt. done.
Qed.

Lemma words_bytes ws :
  length (flat_map (SHA256.be_bytes 4) ws) = (4 * length ws)%nat
  /\ Forall (fun b => b < 256) (flat_map (SHA256.be_bytes 4) ws).
Proof.
  induction ws as [|w ws [IH1 IH2]]; [done|].
  cbn [flat_map]. destruct (be_bytes_bytes 4 w) as [H1 H2].
  split.
  - rewrite length_app, H1, IH1. cbn [length]. lia.
  - by apply Forall_app.
Qed.

(** A digest is 32 bytes. *)
Lemma digest_bytes msg :
  length (SHA256.digest msg) = 32%nat
  /\ Forall (fun b => b < 256) (SHA256.digest msg).
Proof.
  unfold SHA256.digest.
  set (ws := fold_left SHA256.compress _ SHA256.H0).
  assert (Hws : length ws = 8%nat) by (by apply compress_all_length).
  clearbody ws. destruct (words_bytes ws) as [H1 H2].
  split; [by rewrite H1, Hws | exact H2].
Qed.

Lemma hex_digit_lower d : d < 16 -> is_hex_digit (hex_digit false d) = true.
Proof.
  intros Hd. unfold hex_digit, is_hex_digit.
  destruct (N.ltb_spec d 10).
  - apply orb_true_iff. left. apply andb_true_iff.
    split; apply N.leb_le; lia.
  - apply orb_true_iff. right. apply andb_true_iff.
    split; apply N.leb_le; lia.
Qed.

Lemma hex_encode_digits bs :
  Forall (fun b => b < 256) bs ->
  length (hex_encode bs) = (2 * length bs)%nat
  /\ forallb is_hex_digit (hex_encode bs) = true.
Proof.
  induction 1 as [|b bs Hb Hbs [IH1 IH2]]; simpl; [done|].
  split; [lia|]. rewrite IH2, !hex_digit_lower; [done| |].
  - change 0x0F with (N.ones 4). rewrite N.land_ones. by apply N.mod_lt.
  - rewrite N.shiftr_div_pow2. apply N.Div0.div_lt_upper_bound. exact Hb.
Qed.

Lemma hex_digit_plain c :
  is_hex_digit c = true -> utf8_encode_cp c = [c] /\ form_encode_byte c = [c].
Proof.
  unfold is_hex_digit, utf8_encode_cp, form_encode_byte, form_unreserved.
  intros [[H1 H2]%andb_true_iff | [H1 H2]%andb_true_iff]%orb_true_iff;
    apply N.leb_le in H1, H2.
  - assert ((c <? 128) = true) as -> by (apply N.ltb_lt; lia).
    assert ((48 <=? c) = true) as -> by (apply N.leb_le; lia).
    assert ((c <=? 57) = true) as -> by (apply N.leb_le; lia). done.
  - assert ((c <? 128) = true) as -> by (apply N.ltb_lt; lia).
    assert ((97 <=? c) = true) as -> by (apply N.leb_le; lia).
    assert ((c <=? 122) = true) as -> by (apply N.leb_le; lia).
    by rewrite !orb_true_r.
Qed.

Lemma form_encode_hex s :
  forallb is_hex_digit s = true -> form_encode s = s.
Proof.
  unfold form_encode, utf8_encode.
  induction s as [|c s IH]; simpl; [done|].
  intros [Hc Hs]%andb_true_iff.
  destruct (hex_digit_plain c Hc) as [-> H2]. simpl.
  rewrite H2. simpl. f_equal. by apply IH.
Qed.

Lemma checksum_is_64_hex_digits_aux k requestToken s :
  length (checksum k requestToken s) = 64%nat
  /\ forallb is_hex_digit (checksum k requestToken s) = true
  /\ form_encode (checksum k requestToken s) = checksum k requestToken s.
Proof.
  unfold checksum, sha256_hex.
  destruct (digest_bytes (utf8_encode (checksum_message k requestToken s)))
    as [Hlen Hbytes].
  destruct (hex_encode_digits _ Hbytes) as [H1 H2].
  split; [by rewrite H1, Hlen|]. split; [exact H2|]. by apply form_encode_hex.
Qed.

(** X9. The checksum of every exchange is 64 lower-case hexadecimal
    digits, whatever the key, the request token and the secret are, and the
    form serializer sends it as it is. *)
Theorem checksum_is_64_hex_digits (k requestToken s : jsstring) :
  length (checksum k requestToken s) = 64%nat
  /\ forallb is_hex_digit (checksum k requestToken s) = true
  /\ form_encode (checksum k requestToken s) = checksum k requestToken s.
Proof. apply checksum_is_64_hex_digits_aux. Qed.

Lemma count_char_app c a b :
  count_char c (a ++ b) = (count_char c a + count_char c b)%nat.
Proof. unfold count_char. by rewrite List.filter_app, length_app. Qed.

Lemma count_char_absent c s :
  Forall (fun x => x <> c) s -> count_char c s = 0%nat.
Proof.
  unfold count_char. induction 1 as [|x s Hx Hs IH]; simpl; [done|].
  destruct (N.eqb_spec c x); [congruence | done].
Qed.

Lemma hex_digit_not_separator upper d :
  hex_digit upper d <> 0x26 /\ hex_digit upper d <> 0x3D.
Proof.
  unfold hex_digit. destruct (N.ltb_spec d 10); destruct upper; lia.
Qed.

(** A serialized name or value holds neither [&] nor [=]. *)
Lemma form_encode_no_separator s :
  Forall (fun x => x <> 0x26) (form_encode s)
  /\ Forall (fun x => x <> 0x3D) (form_encode s).
Proof.
  unfold form_encode. generalize (utf8_encode s). intros bs.
  induction bs as [|b bs [IH1 IH2]]; simpl; [done|].
  assert (H : Forall (fun x => x <> 0x26) (form_encode_byte b)
              /\ Forall (fun x => x <> 0x3D) (form_encode_byte b)).
  { unfold form_encode_byte, form_unreserved.
    destruct (_ || _) eqn:Hu.
    - repeat (apply orb_true_iff in Hu as [Hu|Hu]);
        try (apply andb_true_iff in Hu as [H1 H2]; apply N.leb_le in H1, H2);
        try apply N.eqb_eq in Hu;
        split; repeat constructor; lia.
    - destruct (b =? 32); [split; repeat constructor; lia|].
      unfold hex_byte.
      destruct (hex_digit_not_separator true (N.shiftr b 4)).
      destruct (hex_digit_not_separator true (N.land b 15)).
      split; repeat constructor; try done; lia. }
  destruct H as [H1 H2]. split; by apply Forall_app.
Qed.

(** X10. The body of the exchange request, for every key, request token
    and secret: the three fields in the order [api_key], [request_token],
    [checksum], each value form-encoded.  The body holds exactly two [&]
    and three [=], so no character of the key or of the pasted request
    token can add a field to the form or cut one short. *)
Theorem exchange_body_has_three_fields (this : ZerodhaAuth) (requestToken : jsstring) :
  let body := URLSearchParams_toString (exchange_formData this requestToken) in
  body = lit "api_key=" ++ form_encode (apiKey this)
           ++ lit "&request_token=" ++ form_encode requestToken
           ++ lit "&checksum=" ++ checksum (apiKey this) requestToken (apiSecret this)
  /\ count_char 0x26 body = 2%nat
  /\ count_char 0x3D body = 3%nat.
Proof.
  intros body.
  destruct (checksum_is_64_hex_digits_aux (apiKey this) requestToken (apiSecret this))
    as (_ & _ & Hsum).
  assert (Hbody : body
    = lit "api_key=" ++ form_encode (apiKey this)
        ++ lit "&request_token=" ++ form_encode requestToken
        ++ lit "&checksum=" ++ checksum (apiKey this) requestToken (apiSecret this)).
  { subst body. unfold exchange_formData. simpl. rewrite Hsum.
    assert (form_encode (lit "api_key") ++ lit "=" = lit "api_key=") as E1
      by (vm_compute; reflexivity).
    assert (lit "&" ++ form_encode (lit "request_token") ++ lit "="
            = lit "&request_token=") as E2 by (vm_compute; reflexivity).
    assert (lit "&" ++ form_encode (lit "checksum") ++ lit "="
            = lit "&checksum=") as E3 by (vm_compute; reflexivity).
    rewrite <- E1, <- E2, <- E3. by rewrite <- !app_assoc. }
  split; [exact Hbody|]. rewrite Hbody.
  destruct (form_encode_no_separator (apiKey this)) as [Ka Ke].
  destruct (form_encode_no_separator requestToken) as [Ra Re].
  destruct (form_encode_no_separator (checksum (apiKey this) requestToken (apiSecret this)))
    as [Ca Ce].
  rewrite Hsum in Ca, Ce.
  rewrite !count_char_app.
  rewrite (count_char_absent 0x26 _ Ka), (count_char_absent 0x26 _ Ra),
    (count_char_absent 0x26 _ Ca), (count_char_absent 0x3D _ Ke),
    (count_char_absent 0x3D _ Re), (count_char_absent 0x3D _ Ce).
  split; vm_compute; reflexivity.
Qed.

Opaque sha256_hex.
